(** * Preparation of a sentence for parsing (link-grammar, prepare stage)

    A shallow embedding of [set_dist_fields], [setup_connectors],
    [gword_record_in_connector], [build_sentence_disjuncts] and
    [prepare_to_parse], together with the properties the design document
    states about them.

    Representation.  A null-terminated chain of connectors linked through
    [next] is a [list Connector]; a disjunct list linked through [next] is
    a [list Disjunct]; the array [sent->word] is a [list Word] indexed by
    the word number.  Chains are owned by their disjunct and disjuncts by
    their word (nothing is shared between two lists), so an in-place update
    of a record is the replacement of the list element. *)

From Stdlib Require Import ZArith QArith Lia.
From stdpp Require Import base option list gmap strings.

Local Open Scope Z_scope.
#[local] Set Warnings "-register-all".

(** ** Machine integers

    [int] is 32 bits wide and [size_t] 64 bits wide.  A conversion to
    [int] and an [int] operation keep the low 32 bits, read as a signed
    number; [size_t] arithmetic is modulo [2^64]. *)

Definition INT_MAX : Z := 2 ^ 31 - 1.

Definition to_int (z : Z) : Z := (z + 2 ^ 31) mod 2 ^ 32 - 2 ^ 31.

Definition to_size_t (z : Z) : Z := z mod 2 ^ 64.

(** ** Data model *)

(** A lattice-node set of the word graph, and a (nullable) reference to one. *)
Definition gword_set : Type := gset nat.
Definition gword_ref : Type := option gword_set.

Inductive Direction : Type := Leftward | Rightward.

(** Modelled from the spec: the declaration of [Connector] is not part of
    the sources at hand; the fields are those of the data model
    (direction, type label, cost, length limit, shallow flag, nearest and
    farthest word, originating lattice nodes).  The two distance fields
    hold the [int] that is assigned to them. *)
Record Connector : Type := mkConnector {
  direction : Direction;
  label : string;
  c_cost : Q;
  length_limit : Z;
  shallow : bool;
  nearest_word : Z;
  farthest_word : Z;
  c_originating_gword : gword_ref
}.

(** Modelled from the spec: the declaration of [Disjunct] is not part of
    the sources at hand.  The [next] link is the list structure. *)
Record Disjunct : Type := mkDisjunct {
  left : list Connector;
  right : list Connector;
  word_string : string;
  cost : Q;
  originating_gword : gword_ref
}.

Definition set_dist (c : Connector) (nearest farthest : Z) : Connector :=
  {| direction := direction c; label := label c; c_cost := c_cost c;
     length_limit := length_limit c; shallow := shallow c;
     nearest_word := nearest; farthest_word := farthest;
     c_originating_gword := c_originating_gword c |}.

Definition set_shallow (c : Connector) (b : bool) : Connector :=
  {| direction := direction c; label := label c; c_cost := c_cost c;
     length_limit := length_limit c; shallow := b;
     nearest_word := nearest_word c; farthest_word := farthest_word c;
     c_originating_gword := c_originating_gword c |}.

Definition set_c_originating_gword (c : Connector) (g : gword_ref) : Connector :=
  {| direction := direction c; label := label c; c_cost := c_cost c;
     length_limit := length_limit c; shallow := shallow c;
     nearest_word := nearest_word c; farthest_word := farthest_word c;
     c_originating_gword := g |}.

Definition set_chains (d : Disjunct) (l r : list Connector) : Disjunct :=
  {| left := l; right := r; word_string := word_string d; cost := cost d;
     originating_gword := originating_gword d |}.

(** ** [set_dist_fields]

    The recursion of the source runs to the end of the chain first and
    assigns on the way back.  The result is the returned [int] and the
    chain with its distance fields assigned. *)
Fixpoint set_dist_fields (c : list Connector) (w : Z) (delta w_clamp : Z)
  : Z * list Connector :=
  match c with
  | [] => (to_int w, [])
  | c0 :: next =>
      let '(r, next') := set_dist_fields next w delta w_clamp in
      let i := to_int (r + delta) in
      let farthest :=
        to_int (to_size_t (w + to_size_t (to_int (delta * length_limit c0)))) in
      let farthest :=
        if to_int (delta * farthest) >? w_clamp then w_clamp else farthest in
      (i, set_dist c0 i farthest :: next')
  end.

(** ** [setup_connectors] *)

(** [d->left->shallow = true], when the chain is not empty. *)
Definition mark_shallow (c : list Connector) : list Connector :=
  match c with
  | [] => []
  | c0 :: next => set_shallow c0 true :: next
  end.

(** The body of the loop over the disjuncts of word [w]: [None] when the
    disjunct is skipped, the disjunct as it is kept otherwise.  The right
    chain is only visited when the test on the left chain did not already
    decide ([||] evaluates its second operand on demand). *)
Definition setup_disjunct (sent_len w : nat) (d : Disjunct) : option Disjunct :=
  let '(il, l') := set_dist_fields (left d) (Z.of_nat w) (-1) 0 in
  if il <? 0 then None
  else
    let '(ir, r') :=
      set_dist_fields (right d) (Z.of_nat w) 1
        (to_int (to_size_t (Z.of_nat sent_len - 1))) in
    if ir >=? to_int (Z.of_nat sent_len) then None
    else Some (set_chains d (mark_shallow l') (mark_shallow r')).

(** The loop over the list of word [w]: a kept disjunct becomes the new
    [head]. *)
Definition setup_disjunct_list (sent_len w : nat) (ds : list Disjunct)
  : list Disjunct :=
  fold_left
    (fun head d =>
       match setup_disjunct sent_len w d with
       | None => head
       | Some d' => d' :: head
       end)
    ds [].

(** ** Expressions, words and the sentence *)

(** Modelled from the spec: the declaration of [Exp] is not part of the
    sources at hand.  AND and OR nodes have an ordered sequence of
    operands; a terminal carries its connector (direction, type label,
    length limit), a cost and whether it is optional. *)
Inductive Exp : Type :=
| AND_type (operands : list Exp)
| OR_type (operands : list Exp)
| CONNECTOR_type (dir : Direction) (lab : string) (lim : Z) (cst : Q)
                 (optional : bool).

(** One alternative of a word.  The declaration of [X_node] is not part
    of the sources at hand; the fields are those [build_sentence_disjuncts]
    reads: [x->exp], [x->string] and the lattice-node set
    [x->word->gword_set_head] ([x->next] is the list structure). *)
Record X_node : Type := mkX_node {
  x_exp : Exp;
  x_string : string;
  x_gword_set_head : gword_set
}.

(** [sent->word[w]], with the two fields the code uses: the alternatives
    [x] and the disjunct list [d]. *)
Record Word : Type := mkWord {
  word_x : list X_node;
  word_d : list Disjunct
}.

Definition set_word_d (wd : Word) (ds : list Disjunct) : Word :=
  {| word_x := word_x wd; word_d := ds |}.

(** Modelled from the spec: the declaration of a pool is not part of the
    sources at hand.  A pool of records of type [A] is what [pool_new] is
    told about it ([sizeof(A)] is the type index). *)
Record Pool (A : Type) : Type := mkPool {
  pool_func : string;
  pool_name : string;
  num_elements : Z;
  zero_out : bool;
  align : bool;
  exact : bool
}.
Arguments mkPool {A}.
Arguments pool_func {A}.
Arguments pool_name {A}.
Arguments num_elements {A}.
Arguments zero_out {A}.
Arguments align {A}.
Arguments exact {A}.

(** The sentence, with the fields the code uses. *)
Record Sentence : Type := mkSentence {
  sent_length : nat;
  word : list Word;
  Disjunct_pool : option (Pool Disjunct);
  Connector_pool : option (Pool Connector);
  dc_memblock : list Disjunct;
  num_disjuncts : nat
}.

(** Of the parse options only [opts->disjunct_cost] is read. *)
Record Parse_Options : Type := mkParse_Options {
  disjunct_cost : Q
}.

Definition set_word (sent : Sentence) (ws : list Word) : Sentence :=
  {| sent_length := sent_length sent; word := ws;
     Disjunct_pool := Disjunct_pool sent;
     Connector_pool := Connector_pool sent;
     dc_memblock := dc_memblock sent;
     num_disjuncts := num_disjuncts sent |}.

Definition set_pools (sent : Sentence) (dp : Pool Disjunct)
    (cp : Pool Connector) : Sentence :=
  {| sent_length := sent_length sent; word := word sent;
     Disjunct_pool := Some dp; Connector_pool := Some cp;
     dc_memblock := dc_memblock sent;
     num_disjuncts := num_disjuncts sent |}.

Definition set_dc_memblock (sent : Sentence) (b : list Disjunct) : Sentence :=
  {| sent_length := sent_length sent; word := word sent;
     Disjunct_pool := Disjunct_pool sent;
     Connector_pool := Connector_pool sent;
     dc_memblock := b;
     num_disjuncts := num_disjuncts sent |}.

(** [for (w = 0; w < n; w++) sent->word[w] = body(sent, w, sent->word[w])]:
    the shape of the three loops over the words.  An index past the end of
    the array (undefined in C) leaves the array as it is. *)
Definition for_words_upto (body : Sentence -> nat -> Word -> Word)
    (n : nat) (sent : Sentence) : Sentence :=
  fold_left
    (fun s w => set_word s (alter (body s w) w (word s)))
    (seq 0 n) sent.

Definition for_words (body : Sentence -> nat -> Word -> Word)
    (sent : Sentence) : Sentence :=
  for_words_upto body (sent_length sent) sent.

Definition setup_word (s : Sentence) (w : nat) (wd : Word) : Word :=
  set_word_d wd (setup_disjunct_list (sent_length s) w (word_d wd)).

Definition setup_connectors (sent : Sentence) : Sentence :=
  for_words setup_word sent.

(** ** [gword_record_in_connector] *)

(** The two inner loops, over the right and over the left chain of [d]. *)
Definition record_gword (d : Disjunct) : Disjunct :=
  set_chains d
    (map (fun c => set_c_originating_gword c (originating_gword d)) (left d))
    (map (fun c => set_c_originating_gword c (originating_gword d)) (right d)).

(** The loop over [sent->dc_memblock[0 .. num_disjuncts)]. *)
Definition gword_record_in_connector (sent : Sentence) : Sentence :=
  set_dc_memblock sent
    (fold_left (fun b i => alter record_gword i b)
       (seq 0 (num_disjuncts sent)) (dc_memblock sent)).

(** ** The pools of [build_sentence_disjuncts] *)

(** Modelled from the spec: [pool_new] is not part of the sources at
    hand.  It records what it is told; [sizeof(A)] is the type index. *)
Definition pool_new (A : Type) (func name : string) (num_elements : Z)
    (zero_out align exact : bool) : Pool A :=
  mkPool func name num_elements zero_out align exact.

(** Modelled from the spec: the record all of whose bytes are zero, as a
    zero-initializing pool hands it out. *)
Class Zeroed (A : Type) : Type := zeroed : A.

#[export] Instance Connector_zeroed : Zeroed Connector :=
  {| direction := Leftward; label := ""; c_cost := 0%Q; length_limit := 0;
     shallow := false; nearest_word := 0; farthest_word := 0;
     c_originating_gword := None |}.

#[export] Instance Disjunct_zeroed : Zeroed Disjunct :=
  {| left := []; right := []; word_string := ""; cost := 0%Q;
     originating_gword := None |}.

(** Modelled from the spec: the allocation from a pool is not part of the
    sources at hand.  [mem] is what the memory handed out held before; a
    pool that zero-initializes hands out the zero record instead. *)
Definition pool_alloc {A : Type} `{Zeroed A} (p : Pool A) (mem : A) : A :=
  if zero_out p then zeroed else mem.

(** Modelled from the spec: [catenate_disjuncts] is not part of the
    sources at hand.  It concatenates two disjunct lists, the first one
    followed by the second. *)
Definition catenate_disjuncts (d1 d2 : list Disjunct) : list Disjunct :=
  d1 ++ d2.

(** ** The Expression Expander *)

Module Expander.

(** Modelled from the spec: the single connector of a terminal, drawn
    from the (zeroing) connector pool. *)
Definition terminal_connector (dir : Direction) (lab : string) (lim : Z)
    (cst : Q) : Connector :=
  {| direction := dir; label := lab; c_cost := cst; length_limit := lim;
     shallow := shallow zeroed; nearest_word := nearest_word zeroed;
     farthest_word := farthest_word zeroed;
     c_originating_gword := c_originating_gword zeroed |}.

(** Modelled from the spec: the empty disjunct, of cost 0, that an
    optional terminal yields as well. *)
Definition empty_disjunct (str : string) (gs : gword_ref) : Disjunct :=
  {| left := []; right := []; word_string := str; cost := 0%Q;
     originating_gword := gs |}.

(** Modelled from the spec: the disjunct of a terminal, with its one
    connector on the side it points to and the cost of the terminal. *)
Definition terminal_disjunct (str : string) (gs : gword_ref)
    (dir : Direction) (lab : string) (lim : Z) (cst : Q) : Disjunct :=
  let c := terminal_connector dir lab lim cst in
  {| left := match dir with Leftward => [c] | Rightward => [] end;
     right := match dir with Leftward => [] | Rightward => [c] end;
     word_string := str; cost := cst; originating_gword := gs |}.

(** Modelled from the spec: one pair of the cross product, chains
    concatenated side by side, costs summed. *)
Definition combine (a b : Disjunct) : Disjunct :=
  {| left := left a ++ left b; right := right a ++ right b;
     word_string := word_string a; cost := (cost a + cost b)%Q;
     originating_gword := originating_gword a |}.

(** Modelled from the spec: the cross product of two expansions; a pair
    whose summed cost exceeds the cutoff is not materialized. *)
Definition cross (cutoff : Q) (da db : list Disjunct) : list Disjunct :=
  a ← da; b ← db;
  if Qle_bool (cost a + cost b) cutoff then [combine a b] else [].

(** Modelled from the spec: the expansion of an expression is not part
    of the sources at hand.  A terminal gives the disjunct with its one
    connector and, when optional, the empty disjunct as well; an OR node
    gives the concatenation of the expansions of its operands; an AND
    node gives their cross product, operand after operand. *)
Fixpoint expand (str : string) (gs : gword_ref) (cutoff : Q) (e : Exp)
  : list Disjunct :=
  match e with
  | CONNECTOR_type dir lab lim cst optional =>
      terminal_disjunct str gs dir lab lim cst ::
      (if optional then [empty_disjunct str gs] else [])
  | OR_type operands => concat (map (expand str gs cutoff) operands)
  | AND_type operands =>
      fold_left (cross cutoff) (map (expand str gs cutoff) operands)
        [empty_disjunct str gs]
  end.

(** Modelled from the spec: [build_disjuncts_for_exp] is not part of
    the sources at hand.  It gives every disjunct of the expansion,
    excluding any whose accumulated cost exceeds the cutoff. *)
Definition build_disjuncts_for_exp (sent : Sentence) (e : Exp)
    (str : string) (gs : gword_ref) (cost_cutoff : Q)
    (opts : Parse_Options) : list Disjunct :=
  filter (fun d => Qle_bool (cost d) cost_cutoff) (expand str gs cost_cutoff e).

End Expander.

(** ** The Duplicate Eliminator *)

Module Eliminator.

(** Modelled from the spec: the comparisons of two directions, of two
    connectors and of two chains that structural equality is made of. *)
Definition directions_equal (a b : Direction) : bool :=
  match a, b with
  | Leftward, Leftward | Rightward, Rightward => true
  | _, _ => false
  end.

Definition connectors_equal (a b : Connector) : bool :=
  directions_equal (direction a) (direction b)
  && String.eqb (label a) (label b)
  && Qeq_bool (c_cost a) (c_cost b)
  && (length_limit a =? length_limit b).

Fixpoint chains_equal (a b : list Connector) : bool :=
  match a, b with
  | [], [] => true
  | ca :: a', cb :: b' => connectors_equal ca cb && chains_equal a' b'
  | _, _ => false
  end.

(** Modelled from the spec: structural equality is the same ordered
    sequence of (direction, type label, cost, length limit) on both
    chains. *)
Definition disjuncts_equal (d1 d2 : Disjunct) : bool :=
  chains_equal (left d1) (left d2) && chains_equal (right d1) (right d2).

(** Modelled from the spec: the union of the lattice-node sets two
    references refer to. *)
Definition gword_set_union (a b : gword_ref) : gword_ref :=
  match a, b with
  | Some x, Some y => Some (x ∪ y)
  | Some x, None => Some x
  | None, _ => b
  end.

(** Modelled from the spec: the survivor after a duplicate of it has
    been found.  Its provenance is the union of the two; which cost it
    keeps is the policy [pick_cost]. *)
Definition merge (pick_cost : Q -> Q -> Q) (survivor dup : Disjunct)
  : Disjunct :=
  {| left := left survivor; right := right survivor;
     word_string := word_string survivor;
     cost := pick_cost (cost survivor) (cost dup);
     originating_gword :=
       gword_set_union (originating_gword survivor) (originating_gword dup) |}.

(** Modelled from the spec: [Some] of the survivors with [d] merged
    into the one equal to it, [None] when no survivor equals [d]. *)
Fixpoint absorb (pick_cost : Q -> Q -> Q) (d : Disjunct)
    (kept : list Disjunct) : option (list Disjunct) :=
  match kept with
  | [] => None
  | k :: kept' =>
      if disjuncts_equal k d then Some (merge pick_cost k d :: kept')
      else cons k <$> absorb pick_cost d kept'
  end.

(** Modelled from the spec: one more disjunct [d] is merged into the
    survivor equal to it or becomes a survivor itself. *)
Definition keep (pick_cost : Q -> Q -> Q) (kept : list Disjunct)
    (d : Disjunct) : list Disjunct :=
  match absorb pick_cost d kept with
  | Some kept' => kept'
  | None => kept ++ [d]
  end.

(** Modelled from the spec: [eliminate_duplicate_disjuncts] is not part
    of the sources at hand.  Of the disjuncts that are structurally
    equal exactly one survives, with the provenance of all of them.  The
    policy for the cost of the survivor is left open by the
    specification and is the parameter [pick_cost]. *)
Definition eliminate_duplicate_disjuncts (pick_cost : Q -> Q -> Q)
    (dw : list Disjunct) : list Disjunct :=
  fold_left (keep pick_cost) dw [].

End Eliminator.

(** ** [build_sentence_disjuncts] and [prepare_to_parse] *)

Section Prepare.

(** The two functions the preparation calls that are not part of the
    sources at hand. *)
Variable build_disjuncts_for_exp :
  Sentence -> Exp -> string -> gword_ref -> Q -> Parse_Options ->
  list Disjunct.
Variable eliminate_duplicate_disjuncts : list Disjunct -> list Disjunct.

(** The call [build_disjuncts_for_exp(sent, x->exp, x->string,
    &x->word->gword_set_head, cost_cutoff, opts)] for the alternative
    [x]. *)
Definition expand_alternative (cost_cutoff : Q) (opts : Parse_Options)
    (sent : Sentence) (x : X_node) : list Disjunct :=
  build_disjuncts_for_exp sent (x_exp x) (x_string x)
    (Some (x_gword_set_head x)) cost_cutoff opts.

(** The loop over the alternatives [x] of a word, starting from
    [d = NULL]. *)
Definition build_word_disjuncts (cost_cutoff : Q) (opts : Parse_Options)
    (sent : Sentence) (xs : list X_node) : list Disjunct :=
  fold_left
    (fun d x =>
       let dx := expand_alternative cost_cutoff opts sent x in
       catenate_disjuncts dx d)
    xs [].

Definition build_word (cost_cutoff : Q) (opts : Parse_Options)
    (sent : Sentence) (w : nat) (wd : Word) : Word :=
  set_word_d wd (build_word_disjuncts cost_cutoff opts sent (word_x wd)).

Definition build_sentence_disjuncts (sent : Sentence) (cost_cutoff : Q)
    (opts : Parse_Options) : Sentence :=
  let sent :=
    set_pools sent
      (pool_new Disjunct "build_sentence_disjuncts" "Disjunct" 2048
         false false false)
      (pool_new Connector "build_sentence_disjuncts" "Connector" 8192
         true false false) in
  for_words (build_word cost_cutoff opts) sent.

Definition eliminate_word (sent : Sentence) (i : nat) (wd : Word) : Word :=
  set_word_d wd (eliminate_duplicate_disjuncts (word_d wd)).

(** The diagnostic output (disjunct counts, timings, the dump of all
    disjuncts) does not change the sentence and is left out. *)
Definition prepare_to_parse (sent : Sentence) (opts : Parse_Options)
  : Sentence :=
  let sent := build_sentence_disjuncts sent (disjunct_cost opts) opts in
  let sent := for_words eliminate_word sent in
  setup_connectors sent.

End Prepare.

(** ** Reading the reachability computation over the integers *)

(** The farthest word of a connector with length limit [lim], without
    wrap-around. *)
Definition clamped (w delta w_clamp lim : Z) : Z :=
  let farthest := w + delta * lim in
  if delta * farthest >? w_clamp then w_clamp else farthest.

(** The chain as [set_dist_fields] leaves it when no [int] wraps around:
    the connector that has [k] connectors after it is [k + 1] words away. *)
Fixpoint dist_chain (c : list Connector) (w delta w_clamp : Z)
  : list Connector :=
  match c with
  | [] => []
  | c0 :: next =>
      set_dist c0 (w + delta * Z.of_nat (length c))
        (clamped w delta w_clamp (length_limit c0))
      :: dist_chain next w delta w_clamp
  end.

(** What the computation yields for the disjunct [d] of word [w], on both
    sides. *)
Definition dist_disjunct (sent_len w : nat) (d : Disjunct) : Disjunct :=
  set_chains d
    (set_dist_fields (left d) (Z.of_nat w) (-1) 0).2
    (set_dist_fields (right d) (Z.of_nat w) 1
       (to_int (to_size_t (Z.of_nat sent_len - 1)))).2.

Definition mark_disjunct (d : Disjunct) : Disjunct :=
  set_chains d (mark_shallow (left d)) (mark_shallow (right d)).

(** Both bounds of a connector lie within [[0, sent_len)]. *)
Definition in_range (sent_len : nat) (c : Connector) : Prop :=
  (0 <= nearest_word c < Z.of_nat sent_len)
  /\ (0 <= farthest_word c < Z.of_nat sent_len).

Definition bounds_in_range (sent_len : nat) (d : Disjunct) : Prop :=
  Forall (in_range sent_len) (left d) /\ Forall (in_range sent_len) (right d).

#[export] Instance in_range_dec sent_len c : Decision (in_range sent_len c).
Proof. unfold in_range. apply _. Defined.

#[export] Instance bounds_in_range_dec sent_len d :
  Decision (bounds_in_range sent_len d).
Proof. unfold bounds_in_range. apply _. Defined.

(** A word number of the sentence plus the number of connectors of the
    chain is an [int]. *)
Definition chain_fits (sent_len : nat) (c : list Connector) : Prop :=
  Z.of_nat sent_len + Z.of_nat (length c) <= INT_MAX.

(** The length limits are distances that can be added to a word number
    in [int]. *)
Definition limits_fit (sent_len : nat) (c : list Connector) : Prop :=
  Forall (fun c0 => 0 <= length_limit c0 <= INT_MAX - Z.of_nat sent_len) c.

Definition disjunct_fits (sent_len : nat) (d : Disjunct) : Prop :=
  chain_fits sent_len (left d) /\ chain_fits sent_len (right d).

Definition disjunct_limits_fit (sent_len : nat) (d : Disjunct) : Prop :=
  limits_fit sent_len (left d) /\ limits_fit sent_len (right d).

(** [sent->length] is the number of words of [sent->word], and the
    chains of every disjunct fit. *)
Definition sentence_fits (s : Sentence) : Prop :=
  sent_length s = length (word s)
  /\ Forall (fun wd => Forall (disjunct_fits (sent_length s)) (word_d wd))
       (word s).

Definition sentence_limits_fit (s : Sentence) : Prop :=
  Forall (fun wd => Forall (disjunct_limits_fit (sent_length s)) (word_d wd))
    (word s).

(** The test of the drop decision read on the lengths of the chains. *)
Definition attachable (sent_len w : nat) (d : Disjunct) : Prop :=
  (length (left d) <= w)%nat /\ (w + length (right d) < sent_len)%nat.

#[export] Instance attachable_dec sent_len w d :
  Decision (attachable sent_len w d).
Proof. unfold attachable. apply _. Defined.

(** ** Sample data *)

Definition sample_connector (dir : Direction) (lab : string) (lim : Z)
  : Connector :=
  {| direction := dir; label := lab; c_cost := 0%Q; length_limit := lim;
     shallow := false; nearest_word := 0; farthest_word := 0;
     c_originating_gword := None |}.

(** Two connectors to the right, the first with a length limit of one
    word, the second with a larger one. *)
Definition sample_chain : list Connector :=
  [sample_connector Rightward "A" 1; sample_connector Rightward "B" 9].

Definition sample_disjunct (l r : list Connector) : Disjunct :=
  {| left := l; right := r; word_string := "w"; cost := 0%Q;
     originating_gword := Some {[ 1%nat ]} |}.

(** A sentence of three words of two disjuncts each, one of which is
    too long for its place in each word. *)
Definition sample_sentence : Sentence :=
  {| sent_length := 3;
     word :=
       [ {| word_x := [];
            word_d :=
              [ sample_disjunct [] [sample_connector Rightward "A" 1];
                sample_disjunct [sample_connector Leftward "B" 1] [] ] |};
         {| word_x := [];
            word_d :=
              [ sample_disjunct [sample_connector Leftward "B" 1] sample_chain;
                sample_disjunct [sample_connector Leftward "B" 9]
                  [sample_connector Rightward "A" 1] ] |};
         {| word_x := [];
            word_d :=
              [ sample_disjunct [] [];
                sample_disjunct [] [sample_connector Rightward "A" 1] ] |} ];
     Disjunct_pool := None; Connector_pool := None;
     dc_memblock := []; num_disjuncts := 0 |}.

(** The one disjunct of the second word of [sample_sentence] that can be
    attached, as [setup_connectors] leaves it. *)
Definition sample_kept : Disjunct :=
  {| left :=
       [ {| direction := Leftward; label := "B"; c_cost := 0%Q;
            length_limit := 9; shallow := true; nearest_word := 0;
            farthest_word := 0; c_originating_gword := None |} ];
     right :=
       [ {| direction := Rightward; label := "A"; c_cost := 0%Q;
            length_limit := 1; shallow := true; nearest_word := 2;
            farthest_word := 2; c_originating_gword := None |} ];
     word_string := "w"; cost := 0%Q;
     originating_gword := Some {[ 1%nat ]} |}.

(** A disjunct block of two disjuncts whose connectors do not yet refer
    to a lattice-node set. *)
Definition sample_block_sentence : Sentence :=
  {| sent_length := 0; word := [];
     Disjunct_pool := None; Connector_pool := None;
     dc_memblock :=
       [ sample_disjunct [sample_connector Leftward "B" 1] sample_chain;
         sample_disjunct [] [] ];
     num_disjuncts := 2 |}.

(** A word with two alternatives, [S+ or O-] on lattice node 1 and
    [A+ & {B-}] on lattice node 2. *)
Definition sample_alternatives : list X_node :=
  [ {| x_exp :=
         OR_type [ CONNECTOR_type Rightward "S" 1 0%Q false;
                   CONNECTOR_type Leftward "O" 1 1%Q false ];
       x_string := "w.n"; x_gword_set_head := {[ 1%nat ]} |};
    {| x_exp :=
         AND_type [ CONNECTOR_type Rightward "A" 1 0%Q false;
                    CONNECTOR_type Leftward "B" 1 (1 # 4)%Q true ];
       x_string := "w.v"; x_gword_set_head := {[ 2%nat ]} |} ].

Definition sample_expression_sentence : Sentence :=
  {| sent_length := 1;
     word := [ {| word_x := sample_alternatives; word_d := [] |} ];
     Disjunct_pool := None; Connector_pool := None;
     dc_memblock := []; num_disjuncts := 0 |}.

Definition sample_options : Parse_Options :=
  {| disjunct_cost := (1 # 2)%Q |}.

(** ** Reading the Duplicate Eliminator on the chains *)

(** The part of a disjunct that structural equality looks at. *)
Definition chains (d : Disjunct) : list Connector * list Connector :=
  (left d, right d).

Definition chain_pairs_equal (a b : list Connector * list Connector) : bool :=
  Eliminator.chains_equal a.1 b.1 && Eliminator.chains_equal a.2 b.2.

(** No chain pair of the list is equal to a later one. *)
Fixpoint distinct_chains (l : list (list Connector * list Connector)) : Prop :=
  match l with
  | [] => True
  | a :: l' =>
      Forall (fun b => chain_pairs_equal a b = false) l' /\ distinct_chains l'
  end.

(** A sentence of two words with the alternatives of
    [sample_alternatives] each, as [prepare_to_parse] leaves it with the
    expander and the eliminator modelled above, and the list and the
    first disjunct of its first word. *)
Definition sample_two_words : Sentence :=
  {| sent_length := 2;
     word := [ {| word_x := sample_alternatives; word_d := [] |};
               {| word_x := sample_alternatives; word_d := [] |} ];
     Disjunct_pool := None; Connector_pool := None;
     dc_memblock := []; num_disjuncts := 0 |}.

Definition sample_prepared : Sentence :=
  prepare_to_parse Expander.build_disjuncts_for_exp
    (Eliminator.eliminate_duplicate_disjuncts (fun kept _ => kept))
    sample_two_words sample_options.

Definition sample_prepared_list : list Disjunct :=
  from_option word_d [] (word sample_prepared !! 0%nat).

Definition sample_prepared_disjunct : Disjunct :=
  default zeroed (head sample_prepared_list).

(** * Properties *)

(** ** Machine integers *)

Lemma to_int_id z : - 2 ^ 31 <= z <= INT_MAX -> to_int z = z.
Proof.
  unfold to_int, INT_MAX. intros Hz.
  rewrite Z.mod_small by lia. lia.
Qed.

Lemma divide_32_64 : (2 ^ 32 | 2 ^ 64).
Proof. exists (2 ^ 32). reflexivity. Qed.

Lemma to_int_to_size_t z : to_int (to_size_t z) = to_int z.
Proof.
  unfold to_int, to_size_t. f_equal.
  rewrite <- Zplus_mod_idemp_l, (Z.mod_mod_divide _ _ _ divide_32_64).
  by rewrite Zplus_mod_idemp_l.
Qed.

Lemma to_int_size_t_add w z :
  to_int (to_size_t (w + to_size_t z)) = to_int (w + z).
Proof.
  rewrite to_int_to_size_t. unfold to_int, to_size_t. f_equal.
  rewrite <- (Z.add_assoc w), <- Zplus_mod_idemp_r.
  rewrite <- (Zplus_mod_idemp_l (z mod 2 ^ 64)).
  rewrite (Z.mod_mod_divide _ _ _ divide_32_64).
  rewrite !Zplus_mod_idemp_l, Zplus_mod_idemp_r. f_equal. lia.
Qed.

(** ** [set_dist_fields] *)

Ltac int_lia :=
  unfold INT_MAX in *; cbn [length] in *;
  change (2 ^ 31) with 2147483648 in *; lia.

Lemma set_dist_fields_length c w delta w_clamp :
  length (set_dist_fields c w delta w_clamp).2 = length c.
Proof.
  induction c as [|c0 next IH]; [done|]. simpl.
  destruct (set_dist_fields next w delta w_clamp) as [r next']. simpl in *.
  by rewrite IH.
Qed.

(** The returned [int] counts the connectors of the chain from [w]. *)
Lemma set_dist_fields_fst c w delta w_clamp :
  0 <= w -> w + Z.of_nat (length c) <= INT_MAX -> delta = -1 \/ delta = 1 ->
  (set_dist_fields c w delta w_clamp).1 = w + delta * Z.of_nat (length c).
Proof.
  intros Hw Hfit Hdelta. induction c as [|c0 next IH]; simpl.
  - rewrite to_int_id; int_lia.
  - destruct (set_dist_fields next w delta w_clamp) as [r next']. simpl in *.
    rewrite IH by lia.
    destruct Hdelta as [-> | ->]; rewrite to_int_id; int_lia.
Qed.

Lemma set_dist_fields_snd c w delta w_clamp :
  0 <= w -> w + Z.of_nat (length c) <= INT_MAX -> delta = -1 \/ delta = 1 ->
  Forall (fun c0 => 0 <= length_limit c0 <= INT_MAX - w) c ->
  (set_dist_fields c w delta w_clamp).2 = dist_chain c w delta w_clamp.
Proof.
  intros Hw Hfit Hdelta Hlim. induction Hlim as [|c0 next Hc0 Hnext IH].
  { done. }
  assert (w + Z.of_nat (length next) <= INT_MAX) as Hfit' by int_lia.
  pose proof (set_dist_fields_fst next w delta w_clamp Hw Hfit' Hdelta) as Hfst.
  cbn [set_dist_fields dist_chain].
  destruct (set_dist_fields next w delta w_clamp) as [r next'].
  cbn [fst snd] in *. rewrite IH, Hfst by done.
  unfold clamped. rewrite to_int_size_t_add.
  destruct Hdelta as [-> | ->].
  all: rewrite (to_int_id (_ * length_limit c0)) by int_lia.
  all: rewrite (to_int_id (w + _ * length_limit c0)) by int_lia.
  all: rewrite (to_int_id (_ * (w + _))) by int_lia.
  all: rewrite to_int_id by int_lia.
  all: cbn [length]; do 2 f_equal; lia.
Qed.

Lemma dist_chain_length c w delta w_clamp :
  length (dist_chain c w delta w_clamp) = length c.
Proof. induction c; simpl; congruence. Qed.

Lemma dist_chain_lookup c w delta w_clamp k c' :
  dist_chain c w delta w_clamp !! k = Some c' ->
  exists c0, c !! k = Some c0
    /\ c' = set_dist c0 (w + delta * (Z.of_nat (length c) - Z.of_nat k))
              (clamped w delta w_clamp (length_limit c0)).
Proof.
  revert k. induction c as [|c0 next IH]; intros k; [done|].
  destruct k as [|k]; cbn [dist_chain lookup list_lookup].
  - intros [= <-]. exists c0. split; [done|]. f_equal; lia.
  - intros Hk. destruct (IH _ Hk) as (c1 & Hc1 & ->).
    exists c1. split; [done|]. f_equal; cbn [length]; lia.
Qed.

Lemma clamped_left w lim : clamped w (-1) 0 lim = Z.max 0 (w - lim).
Proof. unfold clamped. case_match; lia. Qed.

Lemma clamped_right w w_clamp lim :
  clamped w 1 w_clamp lim = Z.min w_clamp (w + lim).
Proof. unfold clamped. case_match; lia. Qed.

(** C2: for the chain of a disjunct of word [w], [set_dist_fields] leaves
    every connector with a nearest word that is the resolved index of the
    next connector of the chain (of [w] itself for the last one) moved by
    one word in the direction of the chain, and with a farthest word that
    is [w] moved by the length limit in that direction and clamped to the
    sentence boundary, so that it is at most [length_limit] words away
    from [w].  Nothing else of a connector changes, and the returned
    index is the one resolved for the head of the chain. *)
Theorem set_dist_fields_distances (c : list Connector) (sent_len w : nat)
    (delta w_clamp : Z) :
  (w < sent_len)%nat ->
  chain_fits sent_len c ->
  limits_fit sent_len c ->
  (delta = -1 /\ w_clamp = 0)
  \/ (delta = 1 /\ w_clamp = Z.of_nat sent_len - 1) ->
  length (set_dist_fields c (Z.of_nat w) delta w_clamp).2 = length c
  /\ (set_dist_fields c (Z.of_nat w) delta w_clamp).1
     = from_option nearest_word (Z.of_nat w)
         ((set_dist_fields c (Z.of_nat w) delta w_clamp).2 !! 0%nat)
  /\ forall (k : nat) (c' : Connector),
       (set_dist_fields c (Z.of_nat w) delta w_clamp).2 !! k = Some c' ->
       exists c0 : Connector,
         c !! k = Some c0
         /\ c' = set_dist c0 (nearest_word c') (farthest_word c')
         /\ nearest_word c'
            = from_option nearest_word (Z.of_nat w)
                ((set_dist_fields c (Z.of_nat w) delta w_clamp).2 !! S k)
              + delta
         /\ farthest_word c'
            = (if decide (delta = -1)
               then Z.max 0 (Z.of_nat w - length_limit c0)
               else Z.min (Z.of_nat sent_len - 1)
                      (Z.of_nat w + length_limit c0))
         /\ Z.abs (farthest_word c' - Z.of_nat w) <= length_limit c0.
Proof.
  intros Hw Hfit Hlim Hside.
  assert (delta = -1 \/ delta = 1) as Hdelta by (destruct Hside; lia).
  assert (0 <= Z.of_nat w) as Hw0 by lia.
  assert (Z.of_nat w + Z.of_nat (length c) <= INT_MAX) as Hfit'
    by (unfold chain_fits in Hfit; lia).
  assert (Forall (fun c0 => 0 <= length_limit c0 <= INT_MAX - Z.of_nat w) c)
    as Hlim' by (eapply Forall_impl; [exact Hlim|]; simpl; intros; lia).
  pose proof (set_dist_fields_fst c _ delta w_clamp Hw0 Hfit' Hdelta) as Hfst.
  pose proof (set_dist_fields_snd c _ delta w_clamp Hw0 Hfit' Hdelta Hlim')
    as Hsnd.
  rewrite Hfst, Hsnd. clear Hfst Hsnd.
  split; [apply dist_chain_length|]. split.
  - destruct c as [|c0 next]; simpl; lia.
  - intros k c' Hk.
    destruct (dist_chain_lookup _ _ _ _ _ _ Hk) as (c0 & Hc0 & ->).
    exists c0. split; [done|]. split; [done|].
    assert (0 <= length_limit c0 <= INT_MAX - Z.of_nat w) as Hc0lim.
    { rewrite Forall_forall in Hlim'. apply Hlim'.
      by eapply list_elem_of_lookup_2. }
    apply lookup_lt_Some in Hc0 as Hklt.
    cbn [set_dist nearest_word farthest_word]. split; [|split].
    + destruct (dist_chain c (Z.of_nat w) delta w_clamp !! S k)
        as [c1|] eqn:Hk1.
      * destruct (dist_chain_lookup _ _ _ _ _ _ Hk1) as (c2 & _ & ->).
        simpl. lia.
      * apply lookup_ge_None in Hk1. rewrite dist_chain_length in Hk1.
        simpl. destruct Hdelta as [-> | ->]; lia.
    + destruct Hside as [[-> ->] | [-> ->]].
      * rewrite decide_True by done. apply clamped_left.
      * rewrite decide_False by done. apply clamped_right.
    + destruct Hside as [[-> ->] | [-> ->]].
      * rewrite clamped_left. lia.
      * rewrite clamped_right. lia.
Qed.

Lemma set_dist_fields_distances_witness :
  ((2 < 5)%nat /\ chain_fits 5 sample_chain /\ limits_fit 5 sample_chain)
  /\ (set_dist_fields sample_chain 2 1 4).1 = 4
  /\ nearest_word <$> (set_dist_fields sample_chain 2 1 4).2 = [4; 3]
  /\ farthest_word <$> (set_dist_fields sample_chain 2 1 4).2 = [3; 4].
Proof.
  assert ((2 < 5)%nat) as Hw by lia.
  assert (chain_fits 5 sample_chain) as Hfit by (by vm_compute).
  assert (limits_fit 5 sample_chain) as Hlim
    by (repeat constructor; by vm_compute).
  pose proof (set_dist_fields_distances sample_chain 5 2 1 4 Hw Hfit Hlim
                (or_intror (conj eq_refl eq_refl))) as (_ & Hret & _).
  split; [done|]. split; [exact Hret|]. split; reflexivity.
Defined.

(** ** The loops over the words *)

Lemma for_words_upto_S body n s :
  for_words_upto body (S n) s
  = set_word (for_words_upto body n s)
      (alter (body (for_words_upto body n s) n) n
         (word (for_words_upto body n s))).
Proof. unfold for_words_upto. by rewrite seq_S, fold_left_app. Qed.

Lemma for_words_upto_frame body n s :
  sent_length (for_words_upto body n s) = sent_length s
  /\ Disjunct_pool (for_words_upto body n s) = Disjunct_pool s
  /\ Connector_pool (for_words_upto body n s) = Connector_pool s
  /\ dc_memblock (for_words_upto body n s) = dc_memblock s
  /\ num_disjuncts (for_words_upto body n s) = num_disjuncts s
  /\ length (word (for_words_upto body n s)) = length (word s).
Proof.
  induction n as [|n IH]; [done|].
  rewrite for_words_upto_S. simpl. by rewrite length_alter.
Qed.

(** Word [w] is rewritten once, by the iteration [w], from what it was
    at the start. *)
Lemma for_words_upto_lookup body n s w :
  word (for_words_upto body n s) !! w
  = if decide (w < n)%nat
    then body (for_words_upto body w s) w <$> word s !! w
    else word s !! w.
Proof.
  induction n as [|n IH].
  { by rewrite decide_False by lia. }
  rewrite for_words_upto_S. cbn [word set_word].
  destruct (decide (w = n)) as [->|Hne].
  - rewrite list_lookup_alter_eq, IH.
    rewrite decide_False by lia. by rewrite decide_True by lia.
  - rewrite list_lookup_alter_ne, IH by done.
    destruct (decide (w < n)%nat).
    + by rewrite decide_True by lia.
    + by rewrite decide_False by lia.
Qed.

Lemma for_words_lookup body s w :
  word (for_words body s) !! w
  = if decide (w < sent_length s)%nat
    then body (for_words_upto body w s) w <$> word s !! w
    else word s !! w.
Proof. apply for_words_upto_lookup. Qed.

(** ** [setup_connectors] *)

Lemma setup_connectors_frame s :
  sent_length (setup_connectors s) = sent_length s
  /\ Disjunct_pool (setup_connectors s) = Disjunct_pool s
  /\ Connector_pool (setup_connectors s) = Connector_pool s
  /\ dc_memblock (setup_connectors s) = dc_memblock s
  /\ num_disjuncts (setup_connectors s) = num_disjuncts s
  /\ length (word (setup_connectors s)) = length (word s).
Proof. apply for_words_upto_frame. Qed.

Lemma setup_connectors_lookup s w :
  word (setup_connectors s) !! w
  = if decide (w < sent_length s)%nat
    then setup_word s w <$> word s !! w
    else word s !! w.
Proof.
  unfold setup_connectors. rewrite for_words_lookup.
  case_decide; [|done]. unfold setup_word.
  by rewrite (proj1 (for_words_upto_frame _ _ _)).
Qed.

(** The list of a word after the loop: the kept disjuncts, last one
    first. *)
Lemma setup_disjunct_list_omap sent_len w ds :
  setup_disjunct_list sent_len w ds
  = reverse (omap (setup_disjunct sent_len w) ds).
Proof.
  unfold setup_disjunct_list.
  rewrite <- (app_nil_r (reverse _)). generalize (@nil Disjunct) as head.
  induction ds as [|d ds IH]; intros head; [done|].
  cbn [fold_left omap list_omap]. rewrite IH.
  destruct (setup_disjunct sent_len w d) as [d'|]; [|done].
  by rewrite reverse_cons, <- app_assoc.
Qed.

Lemma setup_disjunct_unfold sent_len w d :
  setup_disjunct sent_len w d
  = if decide
         (0 <= (set_dist_fields (left d) (Z.of_nat w) (-1) 0).1
          /\ (set_dist_fields (right d) (Z.of_nat w) 1
                (to_int (to_size_t (Z.of_nat sent_len - 1)))).1
             < to_int (Z.of_nat sent_len))
    then Some (mark_disjunct (dist_disjunct sent_len w d))
    else None.
Proof.
  unfold setup_disjunct, dist_disjunct, mark_disjunct.
  destruct (set_dist_fields (left d) _ _ _) as [il l'].
  destruct (set_dist_fields (right d) _ _ _) as [ir r']. cbn [fst snd].
  destruct (Z.ltb_spec il 0).
  { by rewrite decide_False by lia. }
  destruct (Z.geb_spec ir (to_int (Z.of_nat sent_len))).
  { by rewrite decide_False by lia. }
  by rewrite decide_True by lia.
Qed.

(** The drop decision read on the lengths of the two chains. *)
Lemma setup_disjunct_attachable sent_len w d :
  (w < sent_len)%nat -> disjunct_fits sent_len d ->
  setup_disjunct sent_len w d
  = if decide (attachable sent_len w d)
    then Some (mark_disjunct (dist_disjunct sent_len w d))
    else None.
Proof.
  intros Hw [Hl Hr]. unfold chain_fits in *. rewrite setup_disjunct_unfold.
  rewrite !set_dist_fields_fst by (lia || auto).
  rewrite (to_int_id (Z.of_nat sent_len)) by int_lia.
  unfold attachable.
  destruct (decide (length (left d) <= w
                    /\ w + length (right d) < sent_len)%nat).
  - by rewrite decide_True by lia.
  - by rewrite decide_False by lia.
Qed.

Lemma clamp_arg sent_len w :
  (w < sent_len)%nat -> Z.of_nat sent_len <= INT_MAX ->
  to_int (to_size_t (Z.of_nat sent_len - 1)) = Z.of_nat sent_len - 1.
Proof. intros. rewrite to_int_to_size_t, to_int_id; int_lia. Qed.

Lemma dist_chain_head c0 next w delta w_clamp :
  exists c', dist_chain (c0 :: next) w delta w_clamp !! 0%nat = Some c'
    /\ nearest_word c' = w + delta * Z.of_nat (S (length next)).
Proof. eexists. split; reflexivity. Qed.

Lemma dist_chain_in_range_left sent_len w c :
  (w < sent_len)%nat -> Forall (fun c0 => 0 <= length_limit c0) c ->
  Forall (in_range sent_len) (dist_chain c (Z.of_nat w) (-1) 0)
  <-> (length c <= w)%nat.
Proof.
  intros Hw Hlim. rewrite Forall_lookup. split.
  - intros Hall. destruct c as [|c0 next]; [simpl; lia|].
    destruct (dist_chain_head c0 next (Z.of_nat w) (-1) 0) as (c' & Hc' & Hn).
    destruct (Hall _ _ Hc') as [Hnear _]. cbn [length]. lia.
  - intros Hlen k c' Hk.
    destruct (dist_chain_lookup _ _ _ _ _ _ Hk) as (c0 & Hc0 & ->).
    apply lookup_lt_Some in Hc0 as Hklt.
    assert (0 <= length_limit c0) as Hc0lim.
    { rewrite Forall_forall in Hlim. apply Hlim.
      by eapply list_elem_of_lookup_2. }
    unfold in_range. cbn [set_dist nearest_word farthest_word].
    rewrite clamped_left. lia.
Qed.

Lemma dist_chain_in_range_right sent_len w c :
  (w < sent_len)%nat -> Forall (fun c0 => 0 <= length_limit c0) c ->
  Forall (in_range sent_len)
    (dist_chain c (Z.of_nat w) 1 (Z.of_nat sent_len - 1))
  <-> (w + length c < sent_len)%nat.
Proof.
  intros Hw Hlim. rewrite Forall_lookup. split.
  - intros Hall. destruct c as [|c0 next]; [simpl; lia|].
    destruct (dist_chain_head c0 next (Z.of_nat w) 1 (Z.of_nat sent_len - 1))
      as (c' & Hc' & Hn).
    destruct (Hall _ _ Hc') as [Hnear _]. cbn [length]. lia.
  - intros Hlen k c' Hk.
    destruct (dist_chain_lookup _ _ _ _ _ _ Hk) as (c0 & Hc0 & ->).
    apply lookup_lt_Some in Hc0 as Hklt.
    assert (0 <= length_limit c0) as Hc0lim.
    { rewrite Forall_forall in Hlim. apply Hlim.
      by eapply list_elem_of_lookup_2. }
    unfold in_range. cbn [set_dist nearest_word farthest_word].
    rewrite clamped_right. lia.
Qed.

Lemma limits_fit_weaken sent_len w c :
  (w < sent_len)%nat -> limits_fit sent_len c ->
  Forall (fun c0 => 0 <= length_limit c0 <= INT_MAX - Z.of_nat w) c
  /\ Forall (fun c0 => 0 <= length_limit c0) c.
Proof.
  intros Hw Hlim.
  split; (eapply Forall_impl; [exact Hlim|]); simpl; intros; lia.
Qed.

(** What the computation yields, read over the integers. *)
Lemma dist_disjunct_chains sent_len w d :
  (w < sent_len)%nat ->
  disjunct_fits sent_len d -> disjunct_limits_fit sent_len d ->
  left (dist_disjunct sent_len w d) = dist_chain (left d) (Z.of_nat w) (-1) 0
  /\ right (dist_disjunct sent_len w d)
     = dist_chain (right d) (Z.of_nat w) 1 (Z.of_nat sent_len - 1).
Proof.
  intros Hw [Hl Hr] [Hll Hlr]. unfold chain_fits in *.
  destruct (limits_fit_weaken _ _ _ Hw Hll) as [Hll' _].
  destruct (limits_fit_weaken _ _ _ Hw Hlr) as [Hlr' _].
  unfold dist_disjunct. cbn [left right set_chains].
  rewrite (clamp_arg _ _ Hw) by lia.
  rewrite !set_dist_fields_snd by (lia || auto). done.
Qed.

(** A disjunct is attachable exactly when every bound the computation
    yields for it lies within the sentence. *)
Lemma attachable_bounds_in_range sent_len w d :
  (w < sent_len)%nat ->
  disjunct_fits sent_len d -> disjunct_limits_fit sent_len d ->
  attachable sent_len w d
  <-> bounds_in_range sent_len (dist_disjunct sent_len w d).
Proof.
  intros Hw Hfit Hlim. unfold attachable, bounds_in_range.
  destruct (dist_disjunct_chains _ _ _ Hw Hfit Hlim) as [-> ->].
  destruct Hlim as [Hll Hlr].
  destruct (limits_fit_weaken _ _ _ Hw Hll) as [_ Hll'].
  destruct (limits_fit_weaken _ _ _ Hw Hlr) as [_ Hlr'].
  by rewrite dist_chain_in_range_left, dist_chain_in_range_right.
Qed.

Lemma omap_filter_fmap {A B C} (f : A -> option C) (g : A -> B) (h : B -> C)
    (P : B -> Prop) `{!forall x, Decision (P x)} (l : list A) :
  Forall (fun x => f x = if decide (P (g x)) then Some (h (g x)) else None) l ->
  omap f l = h <$> filter P (g <$> l).
Proof.
  induction 1 as [|x l Hx _ IH]; [done|].
  cbn [omap list_omap fmap list_fmap]. rewrite filter_cons, Hx, IH.
  by case_decide.
Qed.

Lemma sentence_fits_lookup s w wd :
  sentence_fits s -> word s !! w = Some wd ->
  (w < sent_length s)%nat /\ Forall (disjunct_fits (sent_length s)) (word_d wd).
Proof.
  intros [Hlen Hfit] Hw. split.
  - rewrite Hlen. by eapply lookup_lt_Some.
  - rewrite Forall_forall in Hfit. apply Hfit.
    by eapply list_elem_of_lookup_2.
Qed.

Lemma sentence_limits_fit_lookup s w wd :
  sentence_limits_fit s -> word s !! w = Some wd ->
  Forall (disjunct_limits_fit (sent_length s)) (word_d wd).
Proof.
  intros Hlim Hw. unfold sentence_limits_fit in Hlim.
  rewrite Forall_forall in Hlim. apply Hlim.
  by eapply list_elem_of_lookup_2.
Qed.

(** The list of a word after [setup_connectors]: the attachable
    disjuncts with their fields as computed and their first connectors
    marked, last one first. *)
Lemma setup_connectors_attachable s w wd :
  sentence_fits s -> word s !! w = Some wd ->
  word (setup_connectors s) !! w
  = Some (set_word_d wd
            (reverse
               (mark_disjunct ∘ dist_disjunct (sent_length s) w
                  <$> filter (attachable (sent_length s) w) (word_d wd)))).
Proof.
  intros Hs Hwd. destruct (sentence_fits_lookup _ _ _ Hs Hwd) as [Hw Hfit].
  rewrite setup_connectors_lookup, decide_True, Hwd by done.
  cbn [fmap option_fmap option_map]. unfold setup_word.
  rewrite setup_disjunct_list_omap. do 3 f_equal.
  rewrite (omap_filter_fmap _ id (mark_disjunct ∘ dist_disjunct (sent_length s) w)
             (attachable (sent_length s) w)).
  { by rewrite list_fmap_id. }
  eapply Forall_impl; [exact Hfit|]. intros d Hd.
  by apply setup_disjunct_attachable.
Qed.

Lemma filter_fmap_ext {A B} (g : A -> B) (P : A -> Prop) (Q : B -> Prop)
    `{!forall x, Decision (P x)} `{!forall x, Decision (Q x)} (l : list A) :
  Forall (fun x => P x <-> Q (g x)) l ->
  g <$> filter P l = filter Q (g <$> l).
Proof.
  induction 1 as [|x l Hx _ IH]; [done|].
  cbn [fmap list_fmap]. rewrite !filter_cons.
  destruct (decide (P x)), (decide (Q (g x))); cbn [fmap list_fmap];
    rewrite ?IH; tauto.
Qed.

Lemma in_range_mark_shallow sent_len c :
  Forall (in_range sent_len) c -> Forall (in_range sent_len) (mark_shallow c).
Proof. destruct 1; constructor; done. Qed.

(** C1: after [setup_connectors], every connector on either chain of
    every disjunct left in the list of any word has its nearest and its
    farthest word within [[0, sent_length)]; and the list of a word holds
    exactly the disjuncts for which every bound the computation yields on
    either side is within that range, with the fields as computed: a
    disjunct with an out-of-range bound is not in the list, and no field
    is changed to keep one. *)
Theorem setup_connectors_bounds (s : Sentence) :
  sentence_fits s ->
  sentence_limits_fit s ->
  (forall (w : nat) (wd' : Word) (d' : Disjunct) (c : Connector),
      word (setup_connectors s) !! w = Some wd' ->
      d' ∈ word_d wd' ->
      c ∈ left d' ++ right d' ->
      0 <= nearest_word c < Z.of_nat (sent_length s)
      /\ 0 <= farthest_word c < Z.of_nat (sent_length s))
  /\ (forall (w : nat) (wd : Word),
         word s !! w = Some wd ->
         word (setup_connectors s) !! w
         = Some (set_word_d wd
                   (reverse
                      (mark_disjunct
                         <$> filter (bounds_in_range (sent_length s))
                               (dist_disjunct (sent_length s) w
                                  <$> word_d wd))))).
Proof.
  intros Hs Hlim.
  assert (forall w wd, word s !! w = Some wd ->
            word (setup_connectors s) !! w
            = Some (set_word_d wd
                      (reverse
                         (mark_disjunct
                            <$> filter (bounds_in_range (sent_length s))
                                  (dist_disjunct (sent_length s) w
                                     <$> word_d wd))))) as Hlist.
  { intros w wd Hwd. rewrite (setup_connectors_attachable _ _ _ Hs Hwd).
    destruct (sentence_fits_lookup _ _ _ Hs Hwd) as [Hw Hfit].
    pose proof (sentence_limits_fit_lookup _ _ _ Hlim Hwd) as Hlimw.
    do 3 f_equal. rewrite list_fmap_compose. f_equal.
    apply filter_fmap_ext.
    rewrite Forall_forall in Hfit, Hlimw. apply Forall_forall. intros d Hd.
    apply attachable_bounds_in_range; auto. }
  split; [|exact Hlist].
  intros w wd' d' c Hwd' Hd' Hc.
  destruct (word s !! w) as [wd|] eqn:Hwd.
  2:{ apply lookup_ge_None in Hwd. apply lookup_lt_Some in Hwd'.
      rewrite (proj2 (proj2 (proj2 (proj2 (proj2 (setup_connectors_frame s))))))
        in Hwd'. lia. }
  rewrite (Hlist _ _ Hwd) in Hwd'. injection Hwd' as <-.
  cbn [word_d set_word_d] in Hd'.
  apply elem_of_reverse, list_elem_of_fmap in Hd' as (d & -> & Hd).
  apply list_elem_of_filter in Hd as [[Hl Hr] _].
  cbn [mark_disjunct left right set_chains] in Hc.
  apply in_range_mark_shallow in Hl, Hr.
  rewrite Forall_forall in Hl, Hr.
  apply elem_of_app in Hc as [Hc|Hc]; [by apply Hl|by apply Hr].
Qed.

Lemma sample_sentence_fits : sentence_fits sample_sentence.
Proof. split; [done|]. repeat constructor; by vm_compute. Qed.

Lemma sample_sentence_limits_fit : sentence_limits_fit sample_sentence.
Proof. repeat constructor; by vm_compute. Qed.

Lemma setup_connectors_bounds_witness :
  (sentence_fits sample_sentence /\ sentence_limits_fit sample_sentence)
  /\ forall (w : nat) (wd' : Word) (d' : Disjunct) (c : Connector),
       word (setup_connectors sample_sentence) !! w = Some wd' ->
       d' ∈ word_d wd' ->
       c ∈ left d' ++ right d' ->
       0 <= nearest_word c < 3 /\ 0 <= farthest_word c < 3.
Proof.
  split; [split; [exact sample_sentence_fits|exact sample_sentence_limits_fit]|].
  exact (proj1 (setup_connectors_bounds sample_sentence
                  sample_sentence_fits sample_sentence_limits_fit)).
Defined.

Lemma set_dist_fields_shallow c w delta w_clamp :
  shallow <$> (set_dist_fields c w delta w_clamp).2 = shallow <$> c.
Proof.
  induction c as [|c0 next IH]; [done|]. cbn [set_dist_fields].
  destruct (set_dist_fields next w delta w_clamp) as [r next'].
  cbn [snd fmap list_fmap] in *. by rewrite IH.
Qed.

Lemma mark_shallow_flags c :
  shallow <$> mark_shallow c
  = match shallow <$> c with
    | [] => []
    | _ :: flags => true :: flags
    end.
Proof. by destruct c. Qed.

(** A disjunct of the list after [setup_connectors] is a disjunct of
    the list before, kept by the loop body. *)
Lemma setup_connectors_survivor s w wd' d' :
  (w < sent_length s)%nat ->
  word (setup_connectors s) !! w = Some wd' ->
  d' ∈ word_d wd' ->
  exists wd d,
    word s !! w = Some wd /\ d ∈ word_d wd
    /\ setup_disjunct (sent_length s) w d = Some d'.
Proof.
  intros Hw Hwd' Hd'.
  rewrite setup_connectors_lookup, decide_True in Hwd' by done.
  destruct (word s !! w) as [wd|]; [|done].
  injection Hwd' as <-. unfold setup_word in Hd'. cbn [word_d set_word_d] in Hd'.
  rewrite setup_disjunct_list_omap, elem_of_reverse, list_elem_of_omap in Hd'.
  destruct Hd' as (d & Hd & Hkeep). by exists wd, d.
Qed.

(** C8: a disjunct that is in the list of a word after
    [setup_connectors] is a disjunct [d] of that word that the loop kept,
    with [shallow] set on the first connector of its left chain and on
    the first connector of its right chain, whenever the chain is not
    empty, and with the [shallow] flag of every other connector as it
    was. *)
Theorem setup_connectors_shallow (s : Sentence) (w : nat) (wd' : Word)
    (d' : Disjunct) :
  (w < sent_length s)%nat ->
  word (setup_connectors s) !! w = Some wd' ->
  d' ∈ word_d wd' ->
  exists (wd : Word) (d : Disjunct),
    word s !! w = Some wd
    /\ d ∈ word_d wd
    /\ setup_disjunct (sent_length s) w d = Some d'
    /\ shallow <$> left d'
       = match shallow <$> left d with
         | [] => []
         | _ :: flags => true :: flags
         end
    /\ shallow <$> right d'
       = match shallow <$> right d with
         | [] => []
         | _ :: flags => true :: flags
         end.
Proof.
  intros Hw Hwd' Hd'.
  destruct (setup_connectors_survivor _ _ _ _ Hw Hwd' Hd')
    as (wd & d & Hwd & Hd & Hkeep).
  exists wd, d. do 3 (split; [done|]).
  rewrite setup_disjunct_unfold in Hkeep. case_decide; [|done].
  injection Hkeep as <-.
  cbn [mark_disjunct dist_disjunct left right set_chains].
  by rewrite !mark_shallow_flags, !set_dist_fields_shallow.
Qed.

Lemma setup_connectors_shallow_witness :
  ((1 < sent_length sample_sentence)%nat
   /\ word (setup_connectors sample_sentence) !! 1%nat
      = Some {| word_x := []; word_d := [sample_kept] |}
   /\ sample_kept ∈ [sample_kept])
  /\ exists d : Disjunct,
       setup_disjunct 3 1 d = Some sample_kept
       /\ shallow <$> left sample_kept
          = match shallow <$> left d with
            | [] => []
            | _ :: flags => true :: flags
            end.
Proof.
  assert ((1 < sent_length sample_sentence)%nat) as Hw by (simpl; lia).
  assert (word (setup_connectors sample_sentence) !! 1%nat
          = Some {| word_x := []; word_d := [sample_kept] |}) as Hwd'
    by (vm_compute; reflexivity).
  assert (sample_kept ∈ [sample_kept]) as Hd' by apply list_elem_of_here.
  split; [done|].
  destruct (setup_connectors_shallow sample_sentence 1 _ _ Hw Hwd' Hd')
    as (_ & d & _ & _ & Hkeep & Hleft & _).
  by exists d.
Defined.

(** C10: whether [setup_connectors] drops a disjunct of word [w] is
    decided by the lengths of its two chains alone: it is dropped exactly
    when the left chain has more than [w] connectors or [w] plus the
    number of connectors of the right chain reaches the sentence length.
    A disjunct with two empty chains is kept as it is.  The list of the
    word afterwards holds the disjuncts that pass this test on the
    lengths; no length limit takes part in it. *)
Theorem setup_connectors_drop_decision (s : Sentence) (w : nat) (wd : Word) :
  sentence_fits s ->
  word s !! w = Some wd ->
  (forall d : Disjunct,
      d ∈ word_d wd ->
      setup_disjunct (sent_length s) w d = None
      <-> (w < length (left d))%nat
          \/ (sent_length s <= w + length (right d))%nat)
  /\ (forall d : Disjunct,
         d ∈ word_d wd -> left d = [] -> right d = [] ->
         setup_disjunct (sent_length s) w d = Some d)
  /\ word (setup_connectors s) !! w
     = Some (set_word_d wd
               (reverse
                  (mark_disjunct ∘ dist_disjunct (sent_length s) w
                     <$> filter
                           (fun d =>
                              (length (left d) <= w)%nat
                              /\ (w + length (right d) < sent_length s)%nat)
                           (word_d wd)))).
Proof.
  intros Hs Hwd. destruct (sentence_fits_lookup _ _ _ Hs Hwd) as [Hw Hfit].
  rewrite Forall_forall in Hfit.
  split; [|split].
  - intros d Hd. rewrite setup_disjunct_attachable by auto.
    unfold attachable. case_decide; split; (done || lia).
  - intros d Hd Hl Hr. rewrite setup_disjunct_attachable by auto.
    unfold attachable. rewrite decide_True by (rewrite Hl, Hr; simpl; lia).
    destruct d as [l r str cst gs]. cbn [left right] in Hl, Hr. by subst.
  - exact (setup_connectors_attachable _ _ _ Hs Hwd).
Qed.

Lemma setup_connectors_drop_decision_witness :
  (sentence_fits sample_sentence
   /\ word sample_sentence !! 1%nat
      = Some {| word_x := [];
                word_d :=
                  [ sample_disjunct [sample_connector Leftward "B" 1]
                      sample_chain;
                    sample_disjunct [sample_connector Leftward "B" 9]
                      [sample_connector Rightward "A" 1] ] |})
  /\ setup_disjunct 3 1
       (sample_disjunct [sample_connector Leftward "B" 1] sample_chain)
     = None
  /\ is_Some
       (setup_disjunct 3 1
          (sample_disjunct [sample_connector Leftward "B" 9]
             [sample_connector Rightward "A" 1])).
Proof.
  split; [split; [exact sample_sentence_fits|reflexivity]|].
  destruct (setup_connectors_drop_decision sample_sentence 1 _
              sample_sentence_fits eq_refl) as (Hdrop & _ & _).
  split.
  - apply Hdrop; [apply list_elem_of_here|]. right. simpl. lia.
  - apply not_eq_None_Some. rewrite Hdrop.
    + simpl. lia.
    + apply list_elem_of_further, list_elem_of_here.
Defined.

(** ** [gword_record_in_connector] *)

Lemma record_block_lookup (b : list Disjunct) n i :
  fold_left (fun b i => alter record_gword i b) (seq 0 n) b !! i
  = if decide (i < n)%nat then record_gword <$> b !! i else b !! i.
Proof.
  induction n as [|n IH].
  { by rewrite decide_False by lia. }
  rewrite seq_S, fold_left_app. cbn [fold_left Nat.add].
  destruct (decide (i = n)) as [->|Hne].
  - rewrite list_lookup_alter_eq, IH.
    rewrite decide_False by lia. by rewrite decide_True by lia.
  - rewrite list_lookup_alter_ne, IH by done.
    destruct (decide (i < n)%nat).
    + by rewrite decide_True by lia.
    + by rewrite decide_False by lia.
Qed.

Lemma record_block_length (b : list Disjunct) n :
  length (fold_left (fun b i => alter record_gword i b) (seq 0 n) b)
  = length b.
Proof.
  induction n as [|n IH]; [done|].
  by rewrite seq_S, fold_left_app; cbn [fold_left]; rewrite length_alter.
Qed.

(** C9: after [gword_record_in_connector], every connector of the left
    and of the right chain of every disjunct of the disjunct block
    [dc_memblock[0 .. num_disjuncts)] refers to the lattice-node set its
    disjunct refers to.  The disjunct is the one that was there, with
    nothing but that reference changed in its connectors; the block keeps
    its size and the lists of the words are not touched. *)
Theorem gword_record_in_connector_records (sent : Sentence) (i : nat)
    (d' : Disjunct) :
  (i < num_disjuncts sent)%nat ->
  dc_memblock (gword_record_in_connector sent) !! i = Some d' ->
  (forall c : Connector,
      c ∈ left d' ++ right d' ->
      c_originating_gword c = originating_gword d')
  /\ (exists d : Disjunct,
         dc_memblock sent !! i = Some d
         /\ originating_gword d' = originating_gword d
         /\ word_string d' = word_string d
         /\ cost d' = cost d
         /\ left d'
            = (fun c => set_c_originating_gword c (originating_gword d))
                <$> left d
         /\ right d'
            = (fun c => set_c_originating_gword c (originating_gword d))
                <$> right d)
  /\ length (dc_memblock (gword_record_in_connector sent))
     = length (dc_memblock sent)
  /\ num_disjuncts (gword_record_in_connector sent) = num_disjuncts sent
  /\ word (gword_record_in_connector sent) = word sent.
Proof.
  intros Hi Hd'. unfold gword_record_in_connector in *.
  cbn [dc_memblock set_dc_memblock num_disjuncts word] in *.
  rewrite record_block_lookup, decide_True in Hd' by done.
  destruct (dc_memblock sent !! i) as [d|]; [|done]. injection Hd' as <-.
  split; [|split; [|split; [|done]]].
  - intros c. cbn [record_gword left right set_chains originating_gword].
    rewrite elem_of_app, !list_elem_of_fmap.
    by intros [(c0 & -> & _)|(c0 & -> & _)].
  - by exists d.
  - apply record_block_length.
Qed.

Lemma gword_record_in_connector_records_witness :
  ((0 < num_disjuncts sample_block_sentence)%nat
   /\ dc_memblock (gword_record_in_connector sample_block_sentence) !! 0%nat
      = Some (record_gword
                (sample_disjunct [sample_connector Leftward "B" 1]
                   sample_chain)))
  /\ forall c : Connector,
       c ∈ left (record_gword
                   (sample_disjunct [sample_connector Leftward "B" 1]
                      sample_chain))
           ++ right (record_gword
                       (sample_disjunct [sample_connector Leftward "B" 1]
                          sample_chain)) ->
       c_originating_gword c = Some {[ 1%nat ]}.
Proof.
  assert ((0 < num_disjuncts sample_block_sentence)%nat) as Hi
    by (simpl; lia).
  assert (dc_memblock (gword_record_in_connector sample_block_sentence)
            !! 0%nat
          = Some (record_gword
                    (sample_disjunct [sample_connector Leftward "B" 1]
                       sample_chain))) as Hd'
    by reflexivity.
  split; [done|].
  exact (proj1 (gword_record_in_connector_records
                  sample_block_sentence 0 _ Hi Hd')).
Defined.

(** ** [build_sentence_disjuncts] and [prepare_to_parse] *)

Section PrepareProperties.

Variable build_disjuncts_for_exp :
  Sentence -> Exp -> string -> gword_ref -> Q -> Parse_Options ->
  list Disjunct.
Variable eliminate_duplicate_disjuncts : list Disjunct -> list Disjunct.

Lemma build_word_disjuncts_concat cost_cutoff opts st xs :
  build_word_disjuncts build_disjuncts_for_exp cost_cutoff opts st xs
  = concat
      (reverse
         (expand_alternative build_disjuncts_for_exp cost_cutoff opts st
            <$> xs)).
Proof.
  unfold build_word_disjuncts.
  rewrite <- (app_nil_r (concat _)). generalize (@nil Disjunct) as d.
  induction xs as [|x xs IH]; intros d; [done|].
  cbn [fold_left fmap list_fmap]. rewrite IH. unfold catenate_disjuncts.
  rewrite reverse_cons, concat_app. cbn [concat].
  by rewrite app_nil_r, <- app_assoc.
Qed.

Lemma concat_reverse_Permutation {A} (ls : list (list A)) :
  concat (reverse ls) ≡ₚ concat ls.
Proof.
  induction ls as [|l ls IH]; [done|].
  rewrite reverse_cons, concat_app. cbn [concat].
  by rewrite app_nil_r, IH, (comm (++)).
Qed.

Lemma build_sentence_disjuncts_frame sent cost_cutoff opts :
  let sent' :=
    build_sentence_disjuncts build_disjuncts_for_exp sent cost_cutoff opts in
  sent_length sent' = sent_length sent
  /\ Disjunct_pool sent'
     = Some (pool_new Disjunct "build_sentence_disjuncts" "Disjunct" 2048
               false false false)
  /\ Connector_pool sent'
     = Some (pool_new Connector "build_sentence_disjuncts" "Connector" 8192
               true false false)
  /\ dc_memblock sent' = dc_memblock sent
  /\ num_disjuncts sent' = num_disjuncts sent
  /\ length (word sent') = length (word sent).
Proof.
  intros sent'. subst sent'. unfold build_sentence_disjuncts, for_words.
  exact (for_words_upto_frame _ _ (set_pools sent _ _)).
Qed.

(** The list of word [w] after [build_sentence_disjuncts]: the
    expansions of its alternatives, that of the last alternative
    first.  [st] is the sentence as the expansions of word [w] find
    it. *)
Lemma build_sentence_disjuncts_lookup sent cost_cutoff opts w wd :
  (w < sent_length sent)%nat -> word sent !! w = Some wd ->
  exists st : Sentence,
    word (build_sentence_disjuncts build_disjuncts_for_exp sent cost_cutoff
            opts) !! w
    = Some {| word_x := word_x wd;
              word_d :=
                concat
                  (reverse
                     (expand_alternative build_disjuncts_for_exp cost_cutoff
                        opts st <$> word_x wd)) |}.
Proof.
  intros Hw Hwd. eexists.
  unfold build_sentence_disjuncts. rewrite for_words_lookup.
  cbn [sent_length set_pools word]. rewrite decide_True, Hwd by done.
  cbn [fmap option_fmap option_map]. unfold build_word, set_word_d.
  by rewrite build_word_disjuncts_concat.
Qed.

(** C4: [build_sentence_disjuncts] leaves every word with one list
    that holds the disjuncts of the expansions of all its alternatives,
    each as often as the expansions produce it: the list is a
    permutation of the concatenation of the lists produced for the
    alternatives (it is that concatenation with the list of the last
    alternative first). *)
Theorem build_sentence_disjuncts_merges (sent : Sentence) (cost_cutoff : Q)
    (opts : Parse_Options) (w : nat) (wd : Word) :
  (w < sent_length sent)%nat ->
  word sent !! w = Some wd ->
  exists (st : Sentence) (wd' : Word),
    word (build_sentence_disjuncts build_disjuncts_for_exp sent cost_cutoff
            opts) !! w = Some wd'
    /\ word_x wd' = word_x wd
    /\ word_d wd'
       = concat
           (reverse
              ((fun x =>
                  build_disjuncts_for_exp st (x_exp x) (x_string x)
                    (Some (x_gword_set_head x)) cost_cutoff opts)
                 <$> word_x wd))
    /\ word_d wd'
       ≡ₚ concat
            ((fun x =>
                build_disjuncts_for_exp st (x_exp x) (x_string x)
                  (Some (x_gword_set_head x)) cost_cutoff opts)
               <$> word_x wd).
Proof.
  intros Hw Hwd.
  destruct (build_sentence_disjuncts_lookup sent cost_cutoff opts w wd Hw Hwd)
    as [st Hst].
  exists st. eexists. split; [exact Hst|].
  split; [done|]. split; [done|]. apply concat_reverse_Permutation.
Qed.

(** C7: the pool of disjuncts that [build_sentence_disjuncts] creates
    does not zero-initialize and the pool of connectors does, and they
    are the pools of the sentence when [setup_connectors] runs in
    [prepare_to_parse]: a disjunct drawn from the pool holds what the
    memory held, a connector drawn from the pool has [nearest_word],
    [farthest_word] and [shallow] zero. *)
Theorem build_sentence_disjuncts_pools (sent : Sentence) (cost_cutoff : Q)
    (opts : Parse_Options) :
  exists (dp : Pool Disjunct) (cp : Pool Connector),
    Disjunct_pool
      (build_sentence_disjuncts build_disjuncts_for_exp sent cost_cutoff opts)
    = Some dp
    /\ Connector_pool
         (build_sentence_disjuncts build_disjuncts_for_exp sent cost_cutoff
            opts)
       = Some cp
    /\ Connector_pool
         (for_words (eliminate_word eliminate_duplicate_disjuncts)
            (build_sentence_disjuncts build_disjuncts_for_exp sent
               (disjunct_cost opts) opts))
       = Some cp
    /\ zero_out dp = false
    /\ zero_out cp = true
    /\ (forall mem : Disjunct, pool_alloc dp mem = mem)
    /\ (forall mem : Connector,
           nearest_word (pool_alloc cp mem) = 0
           /\ farthest_word (pool_alloc cp mem) = 0
           /\ shallow (pool_alloc cp mem) = false).
Proof.
  destruct (build_sentence_disjuncts_frame sent cost_cutoff opts)
    as (_ & Hdp & Hcp & _).
  destruct (build_sentence_disjuncts_frame sent (disjunct_cost opts) opts)
    as (_ & _ & Hcp' & _).
  eexists; eexists. split; [exact Hdp|]. split; [exact Hcp|].
  split.
  { unfold for_words.
    by rewrite (proj1 (proj2 (proj2 (for_words_upto_frame _ _ _)))). }
  done.
Qed.







End PrepareProperties.



Lemma build_sentence_disjuncts_merges_witness :
  ((0 < sent_length sample_expression_sentence)%nat
   /\ word sample_expression_sentence !! 0%nat
      = Some {| word_x := sample_alternatives; word_d := [] |})
  /\ exists wd' : Word,
       word (build_sentence_disjuncts Expander.build_disjuncts_for_exp
               sample_expression_sentence (1 # 2)%Q sample_options) !! 0%nat
       = Some wd'
       /\ word_x wd' = sample_alternatives
       /\ length (word_d wd') = 3%nat.
Proof.
  assert ((0 < sent_length sample_expression_sentence)%nat) as Hw
    by (simpl; lia).
  assert (word sample_expression_sentence !! 0%nat
          = Some {| word_x := sample_alternatives; word_d := [] |}) as Hwd
    by reflexivity.
  split; [done|].
  destruct (build_sentence_disjuncts_merges Expander.build_disjuncts_for_exp
              sample_expression_sentence (1 # 2)%Q sample_options 0 _ Hw Hwd)
    as (st & wd' & Hwd' & Hx & Hd & _).
  exists wd'. split; [exact Hwd'|]. split; [exact Hx|].
  rewrite Hd. reflexivity.
Defined.

(** ** The Expression Expander *)

Lemma build_disjuncts_for_exp_cost sent e str gs cost_cutoff opts d :
  d ∈ Expander.build_disjuncts_for_exp sent e str gs cost_cutoff opts ->
  (cost d <= cost_cutoff)%Q.
Proof.
  unfold Expander.build_disjuncts_for_exp.
  rewrite list_elem_of_filter. intros [Hcost _].
  by apply Qle_bool_iff, Is_true_eq_true.
Qed.

(** C5: every disjunct of the list that [build_disjuncts_for_exp] gives
    for an expression and a cutoff has a total cost of at most the
    cutoff; so, with the cutoff [opts->disjunct_cost] that
    [prepare_to_parse] hands to [build_sentence_disjuncts], has every
    disjunct of the list of every word. *)
Theorem expansion_cost_cutoff :
  (forall (sent : Sentence) (e : Exp) (str : string) (gs : gword_ref)
          (cost_cutoff : Q) (opts : Parse_Options) (d : Disjunct),
      d ∈ Expander.build_disjuncts_for_exp sent e str gs cost_cutoff opts ->
      (cost d <= cost_cutoff)%Q)
  /\ (forall (sent : Sentence) (opts : Parse_Options) (w : nat)
            (wd' : Word) (d : Disjunct),
         (w < sent_length sent)%nat ->
         word (build_sentence_disjuncts Expander.build_disjuncts_for_exp sent
                 (disjunct_cost opts) opts) !! w = Some wd' ->
         d ∈ word_d wd' ->
         (cost d <= disjunct_cost opts)%Q).
Proof.
  split; [apply build_disjuncts_for_exp_cost|].
  intros sent opts w wd' d Hw Hwd' Hd.
  destruct (word sent !! w) as [wd|] eqn:Hwd.
  2:{ apply lookup_ge_None in Hwd. apply lookup_lt_Some in Hwd'.
      pose proof (build_sentence_disjuncts_frame
                    Expander.build_disjuncts_for_exp sent
                    (disjunct_cost opts) opts) as Hframe.
      cbv zeta in Hframe. lia. }
  destruct (build_sentence_disjuncts_lookup Expander.build_disjuncts_for_exp
              sent (disjunct_cost opts) opts w wd Hw Hwd) as [st Hst].
  rewrite Hst in Hwd'. injection Hwd' as <-. cbn [word_d] in Hd.
  apply list_elem_of_In, in_concat in Hd as (l & Hl & Hd).
  apply list_elem_of_In, elem_of_reverse, list_elem_of_fmap in Hl
    as (x & -> & _).
  apply list_elem_of_In in Hd. unfold expand_alternative in Hd.
  exact (build_disjuncts_for_exp_cost _ _ _ _ _ _ _ Hd).
Qed.

(** The branch of the cheaper connector is the only one within a cutoff
    of one half. *)
Example expansion_or_scenario :
  Expander.build_disjuncts_for_exp sample_expression_sentence
    (OR_type [ CONNECTOR_type Rightward "S" 1 0%Q false;
               CONNECTOR_type Leftward "O" 1 1%Q false ])
    "w.n" (Some {[ 1%nat ]}) (1 # 2)%Q sample_options
  = [ Expander.terminal_disjunct "w.n" (Some {[ 1%nat ]}) Rightward "S" 1 0%Q ].
Proof. reflexivity. Qed.

(** ** The Duplicate Eliminator *)

Lemma disjuncts_equal_chains d1 d2 :
  Eliminator.disjuncts_equal d1 d2 = chain_pairs_equal (chains d1) (chains d2).
Proof. done. Qed.

Lemma absorb_None pick_cost d kept :
  Eliminator.absorb pick_cost d kept = None
  <-> Forall (fun a => chain_pairs_equal a (chains d) = false)
        (chains <$> kept).
Proof.
  induction kept as [|k kept IH]; cbn [Eliminator.absorb fmap list_fmap].
  { split; [constructor|done]. }
  rewrite Forall_cons, <- IH, disjuncts_equal_chains.
  destruct (chain_pairs_equal (chains k) (chains d)).
  - split; [done|]. by intros [? _].
  - rewrite fmap_None. tauto.
Qed.

(** A duplicate is merged into a survivor without a change to any
    chain. *)
Lemma absorb_Some_chains pick_cost d kept kept' :
  Eliminator.absorb pick_cost d kept = Some kept' ->
  chains <$> kept' = chains <$> kept.
Proof.
  revert kept'. induction kept as [|k kept IH]; intros kept'; [done|].
  cbn [Eliminator.absorb]. destruct (Eliminator.disjuncts_equal k d).
  - by intros [= <-].
  - destruct (Eliminator.absorb pick_cost d kept) as [kept''|]; [|done].
    intros [= <-]. cbn [fmap list_fmap]. by rewrite (IH kept'').
Qed.

Lemma distinct_chains_snoc l a :
  distinct_chains l -> Forall (fun b => chain_pairs_equal b a = false) l ->
  distinct_chains (l ++ [a]).
Proof.
  induction l as [|b l IH]; cbn [distinct_chains app].
  { by split. }
  intros [Hb Hl]. rewrite Forall_cons. intros [Hba Hla]. split.
  - rewrite Forall_app. split; [done|]. by constructor.
  - by apply IH.
Qed.

Lemma distinct_chains_app_cons l a l' :
  distinct_chains (l ++ a :: l') ->
  Forall (fun b => chain_pairs_equal b a = false) l.
Proof.
  induction l as [|b l IH]; cbn [distinct_chains app]; [constructor|].
  intros [Hb Hl]. constructor; [|by apply IH].
  rewrite Forall_app, Forall_cons in Hb. tauto.
Qed.

(** The survivors are pairwise structurally different. *)
Lemma keep_distinct pick_cost kept d :
  distinct_chains (chains <$> kept) ->
  distinct_chains (chains <$> Eliminator.keep pick_cost kept d).
Proof.
  intros Hkept. unfold Eliminator.keep.
  destruct (Eliminator.absorb pick_cost d kept) as [kept'|] eqn:Habsorb.
  - by rewrite (absorb_Some_chains _ _ _ _ Habsorb).
  - rewrite fmap_app. apply distinct_chains_snoc; [done|].
    by apply absorb_None in Habsorb.
Qed.

Lemma eliminate_distinct pick_cost dw :
  distinct_chains
    (chains <$> Eliminator.eliminate_duplicate_disjuncts pick_cost dw).
Proof.
  unfold Eliminator.eliminate_duplicate_disjuncts.
  assert (distinct_chains (chains <$> [])) as Hnil by done.
  revert Hnil. generalize (@nil Disjunct) as kept.
  induction dw as [|d dw IH]; intros kept Hkept; [done|].
  cbn [fold_left]. by apply IH, keep_distinct.
Qed.

(** On a list without duplicates every disjunct is kept, where it is. *)
Lemma eliminate_no_duplicates pick_cost kept dw :
  distinct_chains (chains <$> (kept ++ dw)) ->
  fold_left (Eliminator.keep pick_cost) dw kept = kept ++ dw.
Proof.
  revert kept. induction dw as [|d dw IH]; intros kept Hdistinct.
  { by rewrite app_nil_r. }
  cbn [fold_left]. unfold Eliminator.keep at 2.
  assert (Eliminator.absorb pick_cost d kept = None) as ->.
  { apply absorb_None. rewrite fmap_app in Hdistinct.
    by apply distinct_chains_app_cons in Hdistinct. }
  rewrite IH; rewrite <- app_assoc; done.
Qed.

(** C6: [eliminate_duplicate_disjuncts] run on its own output removes
    nothing: the second run gives the list the first run gave, so the two
    are the same multiset of disjuncts.  This holds whichever cost the
    survivor of a merge keeps. *)
Theorem eliminate_duplicate_disjuncts_idempotent (pick_cost : Q -> Q -> Q)
    (dw : list Disjunct) :
  Eliminator.eliminate_duplicate_disjuncts pick_cost
    (Eliminator.eliminate_duplicate_disjuncts pick_cost dw)
  = Eliminator.eliminate_duplicate_disjuncts pick_cost dw
  /\ Eliminator.eliminate_duplicate_disjuncts pick_cost
       (Eliminator.eliminate_duplicate_disjuncts pick_cost dw)
     ≡ₚ Eliminator.eliminate_duplicate_disjuncts pick_cost dw.
Proof.
  assert (Eliminator.eliminate_duplicate_disjuncts pick_cost
            (Eliminator.eliminate_duplicate_disjuncts pick_cost dw)
          = Eliminator.eliminate_duplicate_disjuncts pick_cost dw) as Heq.
  { unfold Eliminator.eliminate_duplicate_disjuncts at 1.
    rewrite eliminate_no_duplicates; [done|]. apply eliminate_distinct. }
  split; [exact Heq|]. by rewrite Heq.
Qed.

(** Two alternatives that give the same chains leave one disjunct, with
    the lattice nodes of both. *)
Example eliminate_duplicate_scenario :
  Eliminator.eliminate_duplicate_disjuncts (fun kept _ => kept)
    [ Expander.terminal_disjunct "w" (Some {[ 1%nat ]}) Rightward "S" 1 0%Q;
      Expander.terminal_disjunct "w" (Some {[ 2%nat ]}) Rightward "S" 1 0%Q ]
  = [ Expander.terminal_disjunct "w" (Some {[ 1%nat; 2%nat ]})
        Rightward "S" 1 0%Q ].
Proof. reflexivity. Qed.


(** * Further properties of the reachability computation *)

(** ** [set_dist_fields] *)

Lemma set_dist_fields_nearest_lookup c w delta w_clamp k c' :
  0 <= w -> w + Z.of_nat (length c) <= INT_MAX -> delta = -1 \/ delta = 1 ->
  (set_dist_fields c w delta w_clamp).2 !! k = Some c' ->
  nearest_word c' = w + delta * (Z.of_nat (length c) - Z.of_nat k).
Proof.
  intros Hw Hfit Hdelta. revert k.
  induction c as [|c0 next IH]; intros k; [done|].
  assert (w + Z.of_nat (length next) <= INT_MAX) as Hfit' by int_lia.
  pose proof (set_dist_fields_fst next w delta w_clamp Hw Hfit' Hdelta) as Hfst.
  cbn [set_dist_fields].
  destruct (set_dist_fields next w delta w_clamp) as [r next'].
  cbn [fst snd] in *. destruct k as [|k]; cbn [lookup list_lookup].
  - intros [= <-]. cbn [nearest_word set_dist]. rewrite Hfst.
    destruct Hdelta as [-> | ->]; rewrite to_int_id; int_lia.
  - intros Hk. rewrite (IH Hfit' _ Hk). cbn [length]. lia.
Qed.

(** X1: the nearest words of a chain count the connectors from the word:
    in a chain of [n] connectors of word [w] the connector at position
    [k] (the head is at position 0) gets [w + delta * (n - k)], so the
    head gets [w + delta * n], the last connector [w + delta], and the
    returned index is that of the head, [w + delta * n]. *)
Theorem set_dist_fields_nearest_closed_form (c : list Connector) (w : nat)
    (delta w_clamp : Z) :
  Z.of_nat w + Z.of_nat (length c) <= INT_MAX ->
  delta = -1 \/ delta = 1 ->
  (set_dist_fields c (Z.of_nat w) delta w_clamp).1
  = Z.of_nat w + delta * Z.of_nat (length c)
  /\ forall (k : nat) (c' : Connector),
       (set_dist_fields c (Z.of_nat w) delta w_clamp).2 !! k = Some c' ->
       nearest_word c'
       = Z.of_nat w + delta * (Z.of_nat (length c) - Z.of_nat k).
Proof.
  intros Hfit Hdelta. split.
  - apply set_dist_fields_fst; (lia || done).
  - intros k c'. apply set_dist_fields_nearest_lookup; (lia || done).
Qed.

Lemma set_dist_fields_nearest_closed_form_witness :
  (2 + Z.of_nat (length sample_chain) <= INT_MAX)
  /\ (set_dist_fields sample_chain 2 (-1) 0).1 = 0
  /\ nearest_word <$> (set_dist_fields sample_chain 2 (-1) 0).2 = [0; 1].
Proof.
  assert (Z.of_nat 2 + Z.of_nat (length sample_chain) <= INT_MAX) as Hfit
    by (by vm_compute).
  pose proof (set_dist_fields_nearest_closed_form sample_chain 2 (-1) 0 Hfit
                (or_introl eq_refl)) as [Hret _].
  split; [exact Hfit|]. split; [exact Hret|reflexivity].
Defined.

(** The returned index is a function of the number of connectors. *)
Lemma set_dist_fields_fst_length c1 c2 w delta w_clamp1 w_clamp2 :
  length c1 = length c2 ->
  (set_dist_fields c1 w delta w_clamp1).1
  = (set_dist_fields c2 w delta w_clamp2).1.
Proof.
  revert c2. induction c1 as [|a c1 IH]; intros [|b c2] Hlen; try done.
  injection Hlen as Hlen. specialize (IH c2 Hlen). cbn [set_dist_fields].
  destruct (set_dist_fields c1 w delta w_clamp1) as [r1 c1'].
  destruct (set_dist_fields c2 w delta w_clamp2) as [r2 c2'].
  cbn [fst] in *. by rewrite IH.
Qed.

(** X2: whether the loop of [setup_connectors] drops a disjunct is
    decided by the numbers of connectors of its two chains, whatever the
    connectors hold and however large the numbers are: two disjuncts with
    chains of the same lengths are both dropped or both kept. *)
Theorem setup_disjunct_decided_by_lengths (sent_len w : nat)
    (d1 d2 : Disjunct) :
  length (left d1) = length (left d2) ->
  length (right d1) = length (right d2) ->
  setup_disjunct sent_len w d1 = None <-> setup_disjunct sent_len w d2 = None.
Proof.
  intros Hl Hr. rewrite !setup_disjunct_unfold.
  rewrite (set_dist_fields_fst_length (left d1) (left d2) _ _ 0 0 Hl).
  rewrite (set_dist_fields_fst_length (right d1) (right d2) _ _
             (to_int (to_size_t (Z.of_nat sent_len - 1)))
             (to_int (to_size_t (Z.of_nat sent_len - 1))) Hr).
  by case_decide.
Qed.

Lemma setup_disjunct_decided_by_lengths_witness :
  (length (left (sample_disjunct [] [sample_connector Rightward "A" 1]))
   = length (left (sample_disjunct [] [sample_connector Rightward "Z" 200]))
   /\ length (right (sample_disjunct [] [sample_connector Rightward "A" 1]))
      = length (right (sample_disjunct [] [sample_connector Rightward "Z" 200])))
  /\ setup_disjunct 3 2
       (sample_disjunct [] [sample_connector Rightward "Z" 200]) = None.
Proof.
  split; [done|].
  apply (setup_disjunct_decided_by_lengths 3 2
           (sample_disjunct [] [sample_connector Rightward "A" 1])
           (sample_disjunct [] [sample_connector Rightward "Z" 200])
           eq_refl eq_refl).
  reflexivity.
Defined.

(** What [set_dist_fields] does to a chain does not depend on what the
    distance fields held. *)
Lemma set_dist_fields_ignores_distances c1 c2 w delta w_clamp :
  (fun c => set_dist c 0 0) <$> c1 = (fun c => set_dist c 0 0) <$> c2 ->
  set_dist_fields c1 w delta w_clamp = set_dist_fields c2 w delta w_clamp.
Proof.
  revert c2. induction c1 as [|a c1 IH]; intros [|b c2] Heq; try done.
  cbn [fmap list_fmap] in Heq.
  injection Heq as Hdir Hlab Hcost Hlim Hsh Hgw Heq.
  specialize (IH c2 Heq). cbn [set_dist_fields]. rewrite IH, Hlim.
  destruct (set_dist_fields c2 w delta w_clamp) as [r c2'].
  do 2 f_equal. destruct a, b. cbn in *. by subst.
Qed.

Lemma set_dist_fields_clears c w delta w_clamp :
  (fun c0 => set_dist c0 0 0) <$> (set_dist_fields c w delta w_clamp).2
  = (fun c0 => set_dist c0 0 0) <$> c.
Proof.
  induction c as [|c0 next IH]; [done|]. cbn [set_dist_fields].
  destruct (set_dist_fields next w delta w_clamp) as [r next'].
  cbn [snd fmap list_fmap] in *. by rewrite IH.
Qed.

Lemma set_dist_fields_again c w delta w_clamp :
  set_dist_fields (set_dist_fields c w delta w_clamp).2 w delta w_clamp
  = set_dist_fields c w delta w_clamp.
Proof. apply set_dist_fields_ignores_distances, set_dist_fields_clears. Qed.

(** X3: [set_dist_fields] is idempotent, and what it assigns does not
    depend on what the distance fields held before: a second run over the
    chain it left returns the same index and leaves the chain as it is,
    and two chains that differ in their distance fields only come out
    the same. *)
Theorem set_dist_fields_idempotent (c : list Connector)
    (w delta w_clamp : Z) :
  set_dist_fields (set_dist_fields c w delta w_clamp).2 w delta w_clamp
  = set_dist_fields c w delta w_clamp
  /\ forall c2 : list Connector,
       (fun c0 => set_dist c0 0 0) <$> c2 = (fun c0 => set_dist c0 0 0) <$> c ->
       set_dist_fields c2 w delta w_clamp = set_dist_fields c w delta w_clamp.
Proof.
  split.
  - apply set_dist_fields_again.
  - intros c2. apply set_dist_fields_ignores_distances.
Qed.

(** X8: the length limit of a connector is clamped but never makes the
    loop drop the disjunct: a disjunct that can be attached is kept even
    when the head of its right chain has a length limit that is shorter
    than the chain, and that head is then left with a farthest word that
    lies before its nearest word. *)
Theorem setup_disjunct_keeps_short_limit (sent_len w : nat) (d : Disjunct)
    (c0 : Connector) (next : list Connector) :
  (w < sent_len)%nat ->
  disjunct_fits sent_len d ->
  disjunct_limits_fit sent_len d ->
  attachable sent_len w d ->
  right d = c0 :: next ->
  length_limit c0 < Z.of_nat (length (right d)) ->
  exists (d' : Disjunct) (c0' : Connector) (next' : list Connector),
    setup_disjunct sent_len w d = Some d'
    /\ right d' = c0' :: next'
    /\ length_limit c0' = length_limit c0
    /\ farthest_word c0' < nearest_word c0'.
Proof.
  intros Hw Hfit Hlim Hatt Hright Hshort.
  rewrite setup_disjunct_attachable, decide_True by done.
  destruct (dist_disjunct_chains _ _ _ Hw Hfit Hlim) as [_ Hr].
  eexists; eexists; eexists. split; [done|].
  cbn [mark_disjunct right set_chains]. rewrite Hr, Hright in *.
  cbn [dist_chain mark_shallow]. split; [done|].
  cbn [length_limit farthest_word nearest_word set_shallow set_dist].
  split; [done|]. rewrite clamped_right. cbn [length] in *. lia.
Qed.

Lemma setup_disjunct_keeps_short_limit_witness :
  ((0 < 3)%nat
   /\ disjunct_fits 3 (sample_disjunct [] sample_chain)
   /\ disjunct_limits_fit 3 (sample_disjunct [] sample_chain)
   /\ attachable 3 0 (sample_disjunct [] sample_chain))
  /\ exists (d' : Disjunct) (c0' : Connector) (next' : list Connector),
       setup_disjunct 3 0 (sample_disjunct [] sample_chain) = Some d'
       /\ right d' = c0' :: next'
       /\ length_limit c0' = 1
       /\ farthest_word c0' < nearest_word c0'.
Proof.
  assert ((0 < 3)%nat) as Hw by lia.
  assert (disjunct_fits 3 (sample_disjunct [] sample_chain)) as Hfit
    by (split; by vm_compute).
  assert (disjunct_limits_fit 3 (sample_disjunct [] sample_chain)) as Hlim
    by (split; repeat constructor; by vm_compute).
  assert (attachable 3 0 (sample_disjunct [] sample_chain)) as Hatt
    by (split; simpl; lia).
  split; [done|].
  apply (setup_disjunct_keeps_short_limit 3 0
           (sample_disjunct [] sample_chain) _ _ Hw Hfit Hlim Hatt eq_refl).
  by vm_compute.
Defined.

(** ** [setup_connectors] *)

Lemma set_dist_fields_mark_shallow c w delta w_clamp :
  set_dist_fields (mark_shallow c) w delta w_clamp
  = ((set_dist_fields c w delta w_clamp).1,
     mark_shallow (set_dist_fields c w delta w_clamp).2).
Proof.
  destruct c as [|c0 next]; [done|]. cbn [mark_shallow set_dist_fields].
  by destruct (set_dist_fields next w delta w_clamp) as [r next'].
Qed.

Lemma mark_shallow_idempotent c : mark_shallow (mark_shallow c) = mark_shallow c.
Proof. by destruct c. Qed.

Lemma set_dist_fields_marked_again c w delta w_clamp r c' :
  set_dist_fields c w delta w_clamp = (r, c') ->
  set_dist_fields (mark_shallow c') w delta w_clamp = (r, mark_shallow c').
Proof.
  intros Hc. rewrite set_dist_fields_mark_shallow.
  pose proof (set_dist_fields_again c w delta w_clamp) as Hagain.
  rewrite Hc in Hagain. cbn [snd] in Hagain. by rewrite Hagain.
Qed.

(** A disjunct the loop has kept is kept as it is by the loop. *)
Lemma setup_disjunct_kept_again sent_len w d d' :
  setup_disjunct sent_len w d = Some d' ->
  setup_disjunct sent_len w d' = Some d'.
Proof.
  unfold setup_disjunct.
  destruct (set_dist_fields (left d) _ _ _) as [il l'] eqn:Hl.
  destruct (il <? 0) eqn:Hil; [done|].
  destruct (set_dist_fields (right d) _ _ _) as [ir r'] eqn:Hr.
  destruct (ir >=? to_int (Z.of_nat sent_len)) eqn:Hir; [done|].
  intros [= <-]. cbn [left right set_chains].
  rewrite (set_dist_fields_marked_again _ _ _ _ _ _ Hl), Hil.
  rewrite (set_dist_fields_marked_again _ _ _ _ _ _ Hr), Hir.
  by rewrite !mark_shallow_idempotent.
Qed.

Lemma omap_fixed {A} (f : A -> option A) (l : list A) :
  Forall (fun x => f x = Some x) l -> omap f l = l.
Proof.
  induction 1 as [|x l Hx _ IH]; [done|].
  cbn [omap list_omap]. by rewrite Hx, IH.
Qed.

Lemma setup_disjunct_list_again sent_len w ds :
  setup_disjunct_list sent_len w (setup_disjunct_list sent_len w ds)
  = reverse (setup_disjunct_list sent_len w ds).
Proof.
  rewrite (setup_disjunct_list_omap _ _ (setup_disjunct_list _ _ _)).
  f_equal. apply omap_fixed, Forall_forall. intros d' Hd'.
  rewrite setup_disjunct_list_omap, elem_of_reverse, list_elem_of_omap in Hd'.
  destruct Hd' as (d & _ & Hd). by eapply setup_disjunct_kept_again.
Qed.

(** X4: a second run of [setup_connectors] drops nothing more and
    changes no field: it gives every word below [sent->length] the list
    the first run gave it, in the opposite order. *)
Theorem setup_connectors_again (s : Sentence) (w : nat) (wd1 : Word) :
  (w < sent_length s)%nat ->
  word (setup_connectors s) !! w = Some wd1 ->
  word (setup_connectors (setup_connectors s)) !! w
  = Some (set_word_d wd1 (reverse (word_d wd1))).
Proof.
  intros Hw Hwd1. pose proof (setup_connectors_frame s) as (Hlen & _).
  rewrite setup_connectors_lookup, decide_True, Hwd1 by lia.
  cbn [fmap option_fmap option_map]. unfold setup_word. rewrite Hlen.
  rewrite setup_connectors_lookup, decide_True in Hwd1 by done.
  destruct (word s !! w) as [wd|]; [|done]. injection Hwd1 as <-.
  unfold setup_word. cbn [word_d set_word_d].
  by rewrite setup_disjunct_list_again.
Qed.

Lemma setup_connectors_again_witness :
  ((1 < sent_length sample_sentence)%nat
   /\ word (setup_connectors sample_sentence) !! 1%nat
      = Some {| word_x := []; word_d := [sample_kept] |})
  /\ word (setup_connectors (setup_connectors sample_sentence)) !! 1%nat
     = Some {| word_x := []; word_d := [sample_kept] |}.
Proof.
  assert ((1 < sent_length sample_sentence)%nat) as Hw by (simpl; lia).
  assert (word (setup_connectors sample_sentence) !! 1%nat
          = Some {| word_x := []; word_d := [sample_kept] |}) as Hwd1
    by (vm_compute; reflexivity).
  split; [done|].
  exact (setup_connectors_again sample_sentence 1 _ Hw Hwd1).
Defined.

(** X5: [setup_connectors] changes nothing but the disjunct lists of
    the words below [sent->length]: the length, the pools, the disjunct
    block and its size, the number of words and the alternatives of every
    word are as before, and so is every word from [sent->length] on; with
    [sent->length] zero the sentence is as before. *)
Theorem setup_connectors_changes_lists_only (s : Sentence) :
  sent_length (setup_connectors s) = sent_length s
  /\ Disjunct_pool (setup_connectors s) = Disjunct_pool s
  /\ Connector_pool (setup_connectors s) = Connector_pool s
  /\ dc_memblock (setup_connectors s) = dc_memblock s
  /\ num_disjuncts (setup_connectors s) = num_disjuncts s
  /\ length (word (setup_connectors s)) = length (word s)
  /\ (forall w : nat,
         word_x <$> word (setup_connectors s) !! w = word_x <$> word s !! w)
  /\ (forall w : nat,
         (sent_length s <= w)%nat ->
         word (setup_connectors s) !! w = word s !! w)
  /\ (sent_length s = 0%nat -> setup_connectors s = s).
Proof.
  pose proof (setup_connectors_frame s) as (H1 & H2 & H3 & H4 & H5 & H6).
  do 6 (split; [done|]). split; [|split].
  - intros w. rewrite setup_connectors_lookup. case_decide; [|done].
    by destruct (word s !! w).
  - intros w Hw. rewrite setup_connectors_lookup.
    by rewrite decide_False by lia.
  - intros Hzero. unfold setup_connectors, for_words. by rewrite Hzero.
Qed.

Lemma length_omap_le {A B} (f : A -> option B) (l : list A) :
  (length (omap f l) <= length l)%nat.
Proof.
  induction l as [|x l IH]; [done|]. cbn [omap list_omap].
  destruct (f x); cbn [length]; lia.
Qed.

Lemma mark_shallow_clears c :
  (fun c0 => set_shallow (set_dist c0 0 0) false) <$> mark_shallow c
  = (fun c0 => set_shallow (set_dist c0 0 0) false) <$> c.
Proof. by destruct c. Qed.

Lemma set_dist_fields_clears_all c w delta w_clamp :
  (fun c0 => set_shallow (set_dist c0 0 0) false)
    <$> (set_dist_fields c w delta w_clamp).2
  = (fun c0 => set_shallow (set_dist c0 0 0) false) <$> c.
Proof.
  induction c as [|c0 next IH]; [done|]. cbn [set_dist_fields].
  destruct (set_dist_fields next w delta w_clamp) as [r next'].
  cbn [snd fmap list_fmap] in *. by rewrite IH.
Qed.

(** X6: [setup_connectors] adds no disjunct and changes nothing of a
    disjunct it keeps but the distance fields and the [shallow] flags of
    its connectors: a disjunct of the list afterwards is a disjunct [d]
    of the list before with the same string, cost and lattice-node set
    and with chains of the same connectors (direction, type label, cost,
    length limit and lattice-node reference as in [d], in the order of
    [d]); and the list afterwards is not longer than the list before. *)
Theorem setup_connectors_keeps_content (s : Sentence) (w : nat) (wd' : Word)
    (d' : Disjunct) :
  (w < sent_length s)%nat ->
  word (setup_connectors s) !! w = Some wd' ->
  d' ∈ word_d wd' ->
  exists (wd : Word) (d : Disjunct),
    word s !! w = Some wd
    /\ d ∈ word_d wd
    /\ (length (word_d wd') <= length (word_d wd))%nat
    /\ word_string d' = word_string d
    /\ cost d' = cost d
    /\ originating_gword d' = originating_gword d
    /\ (fun c0 => set_shallow (set_dist c0 0 0) false) <$> left d'
       = (fun c0 => set_shallow (set_dist c0 0 0) false) <$> left d
    /\ (fun c0 => set_shallow (set_dist c0 0 0) false) <$> right d'
       = (fun c0 => set_shallow (set_dist c0 0 0) false) <$> right d.
Proof.
  intros Hw Hwd' Hd'.
  destruct (setup_connectors_survivor _ _ _ _ Hw Hwd' Hd')
    as (wd & d & Hwd & Hd & Hkeep).
  exists wd, d. do 2 (split; [done|]). split.
  { rewrite setup_connectors_lookup, decide_True, Hwd in Hwd' by done.
    injection Hwd' as <-. unfold setup_word. cbn [word_d set_word_d].
    rewrite setup_disjunct_list_omap, length_reverse. apply length_omap_le. }
  rewrite setup_disjunct_unfold in Hkeep. case_decide; [|done].
  injection Hkeep as <-.
  cbn [mark_disjunct dist_disjunct left right set_chains word_string cost
         originating_gword].
  do 3 (split; [done|]).
  by rewrite !mark_shallow_clears, !set_dist_fields_clears_all.
Qed.

Lemma setup_connectors_keeps_content_witness :
  ((1 < sent_length sample_sentence)%nat
   /\ word (setup_connectors sample_sentence) !! 1%nat
      = Some {| word_x := []; word_d := [sample_kept] |}
   /\ sample_kept ∈ [sample_kept])
  /\ exists d : Disjunct,
       cost sample_kept = cost d
       /\ length_limit <$> left sample_kept = length_limit <$> left d.
Proof.
  assert ((1 < sent_length sample_sentence)%nat) as Hw by (simpl; lia).
  assert (word (setup_connectors sample_sentence) !! 1%nat
          = Some {| word_x := []; word_d := [sample_kept] |}) as Hwd'
    by (vm_compute; reflexivity).
  assert (sample_kept ∈ [sample_kept]) as Hd' by apply list_elem_of_here.
  split; [done|].
  destruct (setup_connectors_keeps_content sample_sentence 1 _ _ Hw Hwd' Hd')
    as (_ & d & _ & _ & _ & _ & Hcost & _ & Hleft & _).
  exists d. split; [exact Hcost|].
  apply (f_equal (fmap length_limit)) in Hleft.
  by rewrite <- !list_fmap_compose in Hleft.
Defined.

Lemma mark_shallow_length c : length (mark_shallow c) = length c.
Proof. by destruct c. Qed.

(** X7: what is left in the list of word [w] fits between the two ends
    of the sentence: a disjunct of the list after [setup_connectors] has
    at most [w] connectors on the left and fewer than [sent->length - w]
    on the right.  So no disjunct left at the first word has a connector
    on the left, and none left at the last word has one on the right. *)
Theorem setup_connectors_survivors_fit (s : Sentence) (w : nat) (wd' : Word)
    (d' : Disjunct) :
  sentence_fits s ->
  word (setup_connectors s) !! w = Some wd' ->
  d' ∈ word_d wd' ->
  (length (left d') <= w)%nat
  /\ (w + length (right d') < sent_length s)%nat
  /\ (w = 0%nat -> left d' = [])
  /\ (S w = sent_length s -> right d' = []).
Proof.
  intros Hs Hwd' Hd'.
  assert (length (left d') <= w /\ w + length (right d') < sent_length s)%nat
    as [Hl Hr].
  { destruct (word s !! w) as [wd|] eqn:Hwd.
    2:{ apply lookup_ge_None in Hwd. apply lookup_lt_Some in Hwd'.
        pose proof (setup_connectors_frame s) as (_ & _ & _ & _ & _ & Hlen).
        lia. }
    rewrite (setup_connectors_attachable _ _ _ Hs Hwd) in Hwd'.
    injection Hwd' as <-. cbn [word_d set_word_d] in Hd'.
    apply elem_of_reverse, list_elem_of_fmap in Hd' as (d & -> & Hd).
    apply list_elem_of_filter in Hd as [[Hl Hr] _].
    cbn [compose mark_disjunct dist_disjunct left right set_chains].
    by rewrite !mark_shallow_length, !set_dist_fields_length. }
  do 2 (split; [done|]). split.
  - intros ->. destruct (left d'); [done|]. cbn [length] in Hl. lia.
  - intros Hlast. destruct (right d'); [done|]. cbn [length] in Hr. lia.
Qed.

Lemma setup_connectors_survivors_fit_witness :
  (sentence_fits sample_sentence
   /\ word (setup_connectors sample_sentence) !! 1%nat
      = Some {| word_x := []; word_d := [sample_kept] |}
   /\ sample_kept ∈ [sample_kept])
  /\ (length (left sample_kept) <= 1)%nat
  /\ (1 + length (right sample_kept) < 3)%nat.
Proof.
  assert (word (setup_connectors sample_sentence) !! 1%nat
          = Some {| word_x := []; word_d := [sample_kept] |}) as Hwd'
    by (vm_compute; reflexivity).
  assert (sample_kept ∈ [sample_kept]) as Hd' by apply list_elem_of_here.
  split; [split; [exact sample_sentence_fits|done]|].
  destruct (setup_connectors_survivors_fit sample_sentence 1 _ _
              sample_sentence_fits Hwd' Hd') as (Hl & Hr & _).
  by split.
Defined.

(** ** [gword_record_in_connector] *)

Lemma record_gword_idempotent d : record_gword (record_gword d) = record_gword d.
Proof.
  unfold record_gword. cbn [left right set_chains originating_gword].
  by rewrite <- !list_fmap_compose.
Qed.

(** X9: [gword_record_in_connector] is idempotent: a second run over
    the disjunct block changes nothing. *)
Theorem gword_record_in_connector_idempotent (sent : Sentence) :
  gword_record_in_connector (gword_record_in_connector sent)
  = gword_record_in_connector sent.
Proof.
  unfold gword_record_in_connector at 1 2.
  cbn [dc_memblock num_disjuncts set_dc_memblock].
  unfold set_dc_memblock at 1.
  cbn [sent_length word Disjunct_pool Connector_pool num_disjuncts
         gword_record_in_connector set_dc_memblock].
  unfold gword_record_in_connector, set_dc_memblock. f_equal.
  apply list_eq. intros i. rewrite !record_block_lookup.
  case_decide; [|done].
  destruct (dc_memblock sent !! i) as [d|]; [|done].
  cbn [fmap option_fmap option_map]. by rewrite record_gword_idempotent.
Qed.


(** ** [build_sentence_disjuncts] and [prepare_to_parse], further *)

Lemma for_words_upto_word_x body n s w :
  (forall st i wd, word_x (body st i wd) = word_x wd) ->
  word_x <$> word (for_words_upto body n s) !! w = word_x <$> word s !! w.
Proof.
  intros Hbody. rewrite for_words_upto_lookup. case_decide; [|done].
  destruct (word s !! w); [|done].
  cbn [fmap option_fmap option_map]. by rewrite Hbody.
Qed.

Lemma mark_shallow_head c c0 next :
  mark_shallow c = c0 :: next -> shallow c0 = true.
Proof. destruct c; [done|]. by intros [= <- _]. Qed.

Section PrepareFurther.

Variable build_disjuncts_for_exp :
  Sentence -> Exp -> string -> gword_ref -> Q -> Parse_Options ->
  list Disjunct.
Variable eliminate_duplicate_disjuncts : list Disjunct -> list Disjunct.

Lemma prepare_to_parse_frame sent opts :
  sent_length
    (prepare_to_parse build_disjuncts_for_exp eliminate_duplicate_disjuncts
       sent opts) = sent_length sent
  /\ dc_memblock
       (prepare_to_parse build_disjuncts_for_exp eliminate_duplicate_disjuncts
          sent opts) = dc_memblock sent
  /\ num_disjuncts
       (prepare_to_parse build_disjuncts_for_exp eliminate_duplicate_disjuncts
          sent opts) = num_disjuncts sent
  /\ length
       (word
          (prepare_to_parse build_disjuncts_for_exp
             eliminate_duplicate_disjuncts sent opts))
     = length (word sent)
  /\ sent_length
       (for_words (eliminate_word eliminate_duplicate_disjuncts)
          (build_sentence_disjuncts build_disjuncts_for_exp sent
             (disjunct_cost opts) opts)) = sent_length sent.
Proof.
  unfold prepare_to_parse.
  pose proof (build_sentence_disjuncts_frame build_disjuncts_for_exp sent
                (disjunct_cost opts) opts) as Hbuild. cbv zeta in Hbuild.
  set (s1 := build_sentence_disjuncts build_disjuncts_for_exp sent
               (disjunct_cost opts) opts) in *.
  pose proof (for_words_upto_frame
                (eliminate_word eliminate_duplicate_disjuncts)
                (sent_length s1) s1) as Hdedup.
  fold (for_words (eliminate_word eliminate_duplicate_disjuncts) s1) in Hdedup.
  set (s2 := for_words (eliminate_word eliminate_duplicate_disjuncts) s1) in *.
  pose proof (setup_connectors_frame s2) as Hsetup.
  destruct Hbuild as (Hb1 & _ & _ & Hb4 & Hb5 & Hb6).
  destruct Hdedup as (Hd1 & _ & _ & Hd4 & Hd5 & Hd6).
  destruct Hsetup as (Hs1 & _ & _ & Hs4 & Hs5 & Hs6).
  repeat split; congruence.
Qed.

(** X11: a word without alternatives has an empty disjunct list after
    [build_sentence_disjuncts], whatever its list held before: the list
    of a word is built from [NULL]. *)
Theorem build_sentence_disjuncts_no_alternatives (sent : Sentence)
    (cost_cutoff : Q) (opts : Parse_Options) (w : nat) (wd : Word) :
  (w < sent_length sent)%nat ->
  word sent !! w = Some wd ->
  word_x wd = [] ->
  word (build_sentence_disjuncts build_disjuncts_for_exp sent cost_cutoff opts)
    !! w
  = Some {| word_x := []; word_d := [] |}.
Proof.
  intros Hw Hwd Hx.
  destruct (build_sentence_disjuncts_lookup build_disjuncts_for_exp sent
              cost_cutoff opts w wd Hw Hwd) as [st Hst].
  by rewrite Hst, Hx.
Qed.

(** X12: on a sentence without words [prepare_to_parse] creates the two
    pools and changes nothing else. *)
Theorem prepare_to_parse_empty_sentence (sent : Sentence)
    (opts : Parse_Options) :
  sent_length sent = 0%nat ->
  prepare_to_parse build_disjuncts_for_exp eliminate_duplicate_disjuncts
    sent opts
  = set_pools sent
      (pool_new Disjunct "build_sentence_disjuncts" "Disjunct" 2048
         false false false)
      (pool_new Connector "build_sentence_disjuncts" "Connector" 8192
         true false false).
Proof.
  intros Hzero.
  unfold prepare_to_parse, setup_connectors, build_sentence_disjuncts,
    for_words.
  repeat first
    [ rewrite Hzero
    | progress cbn [for_words_upto seq fold_left sent_length set_pools] ].
  done.
Qed.

(** X13: [prepare_to_parse] does not touch the disjunct block: the
    block and its size are as before, and so are the length of the
    sentence, the number of words and the alternatives of every word.
    Only the two pools and the disjunct lists of the words change. *)
Theorem prepare_to_parse_keeps_block (sent : Sentence) (opts : Parse_Options) :
  dc_memblock
    (prepare_to_parse build_disjuncts_for_exp eliminate_duplicate_disjuncts
       sent opts) = dc_memblock sent
  /\ num_disjuncts
       (prepare_to_parse build_disjuncts_for_exp eliminate_duplicate_disjuncts
          sent opts) = num_disjuncts sent
  /\ sent_length
       (prepare_to_parse build_disjuncts_for_exp eliminate_duplicate_disjuncts
          sent opts) = sent_length sent
  /\ length
       (word
          (prepare_to_parse build_disjuncts_for_exp
             eliminate_duplicate_disjuncts sent opts))
     = length (word sent)
  /\ forall w : nat,
       word_x
         <$> word
               (prepare_to_parse build_disjuncts_for_exp
                  eliminate_duplicate_disjuncts sent opts) !! w
       = word_x <$> word sent !! w.
Proof.
  destruct (prepare_to_parse_frame sent opts) as (H1 & H2 & H3 & H4 & _).
  do 4 (split; [done|]). intros w.
  unfold prepare_to_parse, setup_connectors, build_sentence_disjuncts,
    for_words.
  by rewrite !for_words_upto_word_x.
Qed.

(** X14: after [prepare_to_parse], whatever the expansion and the
    elimination of duplicates give, every disjunct of the list of a word
    below [sent->length] has [shallow] set on the first connector of its
    left chain and on the first connector of its right chain, whenever
    the chain is not empty. *)
Theorem prepare_to_parse_marks_shallow (sent : Sentence) (opts : Parse_Options)
    (w : nat) (wd' : Word) (d' : Disjunct) :
  (w < sent_length sent)%nat ->
  word
    (prepare_to_parse build_disjuncts_for_exp eliminate_duplicate_disjuncts
       sent opts) !! w = Some wd' ->
  d' ∈ word_d wd' ->
  (forall (c0 : Connector) (next : list Connector),
      left d' = c0 :: next -> shallow c0 = true)
  /\ (forall (c0 : Connector) (next : list Connector),
         right d' = c0 :: next -> shallow c0 = true).
Proof.
  intros Hw Hwd' Hd'.
  destruct (prepare_to_parse_frame sent opts) as (_ & _ & _ & _ & Hlen).
  unfold prepare_to_parse in Hwd'.
  assert (w < sent_length
                (for_words (eliminate_word eliminate_duplicate_disjuncts)
                   (build_sentence_disjuncts build_disjuncts_for_exp sent
                      (disjunct_cost opts) opts)))%nat as Hw' by lia.
  destruct (setup_connectors_survivor _ w wd' d' Hw' Hwd' Hd')
    as (wd & d & _ & _ & Hkeep).
  rewrite setup_disjunct_unfold in Hkeep. case_decide; [|done].
  injection Hkeep as <-. cbn [mark_disjunct left right set_chains].
  split; intros c0 next; apply mark_shallow_head.
Qed.

End PrepareFurther.

Lemma build_sentence_disjuncts_no_alternatives_witness :
  ((2 < sent_length sample_sentence)%nat
   /\ word sample_sentence !! 2%nat
      = Some {| word_x := [];
                word_d :=
                  [ sample_disjunct [] [];
                    sample_disjunct [] [sample_connector Rightward "A" 1] ] |})
  /\ word (build_sentence_disjuncts Expander.build_disjuncts_for_exp
             sample_sentence (1 # 2)%Q sample_options) !! 2%nat
     = Some {| word_x := []; word_d := [] |}.
Proof.
  assert ((2 < sent_length sample_sentence)%nat) as Hw by (simpl; lia).
  split; [done|].
  exact (build_sentence_disjuncts_no_alternatives
           Expander.build_disjuncts_for_exp sample_sentence (1 # 2)%Q
           sample_options 2 _ Hw eq_refl eq_refl).
Defined.

Lemma prepare_to_parse_empty_sentence_witness :
  sent_length sample_block_sentence = 0%nat
  /\ dc_memblock
       (prepare_to_parse Expander.build_disjuncts_for_exp
          (Eliminator.eliminate_duplicate_disjuncts (fun kept _ => kept))
          sample_block_sentence sample_options)
     = dc_memblock sample_block_sentence.
Proof.
  split; [done|].
  by rewrite (prepare_to_parse_empty_sentence
                Expander.build_disjuncts_for_exp
                (Eliminator.eliminate_duplicate_disjuncts (fun kept _ => kept))
                sample_block_sentence sample_options eq_refl).
Defined.

Lemma prepare_to_parse_marks_shallow_witness :
  ((0 < sent_length sample_two_words)%nat
   /\ word sample_prepared !! 0%nat
      = Some {| word_x := sample_alternatives;
                word_d := sample_prepared_list |}
   /\ sample_prepared_disjunct ∈ sample_prepared_list)
  /\ label <$> right sample_prepared_disjunct = ["S"]
  /\ shallow <$> right sample_prepared_disjunct = [true].
Proof.
  assert ((0 < sent_length sample_two_words)%nat) as Hw by (simpl; lia).
  assert (word sample_prepared !! 0%nat
          = Some {| word_x := sample_alternatives;
                    word_d := sample_prepared_list |}) as Hwd'
    by (vm_compute; reflexivity).
  assert (sample_prepared_disjunct ∈ sample_prepared_list) as Hd'
    by (vm_compute; apply list_elem_of_here).
  split; [done|].
  destruct (prepare_to_parse_marks_shallow Expander.build_disjuncts_for_exp
              (Eliminator.eliminate_duplicate_disjuncts (fun kept _ => kept))
              sample_two_words sample_options 0 _ _ Hw Hwd' Hd')
    as [_ Hright].
  split; [reflexivity|].
  destruct (right sample_prepared_disjunct) as [|c0 next] eqn:Hr;
    [done|].
  vm_compute in Hr. injection Hr as <- <-.
  reflexivity.
Defined.
